(** * The column imputer of [notebooks/DataCleaning.py]

    A shallow embedding of [detect_column_types], [train_imputation_model],
    [impute_missing_values] and [fill_null_ML], followed by the properties
    the specification states about them.

    What is modelled and how:
    - a pandas [DataFrame] is a header (column labels with their dtypes) and
      a list of rows; a cell is [None] when pandas reports it as null;
    - [DataFrame] objects live in a store and are passed by reference, so
      that [df.copy()] and the in-place write of [impute_missing_values]
      keep the aliasing they have in Python;
    - the model directory is a finite map from paths to pickled pipelines;
    - scikit-learn (random forests, the column transformer, the split and
      the scorers) is an interface: the development holds for every
      implementation of it, and a small lookup learner is given to run the
      code on concrete tables;
    - an exception is an outcome that keeps the state it was raised in.
    Console output ([print]) is not part of the state, and the validation
    score, which is only printed, is computed and dropped. *)

From Stdlib Require Import ZArith List Bool Lia Permutation.
From stdpp Require Import base option list gmap strings.

Open Scope string_scope.
Open Scope Z_scope.
Open Scope nat_scope.

(** ** Tables *)

Inductive dtype : Type :=
| int64 | float64 | complex128 | bool_
| object | category
| datetime64 | timedelta64.

(** What a cell holds. The code compares numbers with zero and does no
    other arithmetic on them, so integers stand for floats as well. *)
Inductive value : Type :=
| VNum (x : Z)
| VStr (s : string)
| VTime (t : Z).

Definition cell : Type := option value.

Record DataFrame : Type := mkDataFrame
  { columns : list (string * dtype);
    rows : list (list cell) }.

Record Series : Type := mkSeries
  { s_dtype : dtype;
    values : list cell }.

#[global] Instance dtype_eq_dec : EqDecision dtype.
Proof. solve_decision. Defined.
#[global] Instance value_eq_dec : EqDecision value.
Proof. solve_decision. Defined.

Definition isnull (c : cell) : bool :=
  match c with None => true | Some _ => false end.

Definition notna (c : cell) : bool := negb (isnull c).

(** [r.iloc[j]]; a row shorter than the header reads as null there. *)
Definition cell_at (r : list cell) (j : nat) : cell := default None (r !! j).

(** [Series.sum()] of a boolean series. *)
Fixpoint mask_sum (mask : list bool) : nat :=
  match mask with
  | [] => 0
  | b :: m => (if b then 1 else 0) + mask_sum m
  end.

(** Boolean-mask selection [xs[mask]]. *)
Fixpoint select {A : Type} (mask : list bool) (xs : list A) : list A :=
  match mask, xs with
  | b :: m, x :: xs' => if b then x :: select m xs' else select m xs'
  | _, _ => []
  end.

Definition names (d : DataFrame) : list string := map fst (columns d).

Definition shape0 (d : DataFrame) : nat := length (rows d).

(** [Index.get_loc]: the position of a label (the first one that matches;
    labels of a table are taken to be distinct). *)
Fixpoint get_loc (cols : list (string * dtype)) (col : string) : option nat :=
  match cols with
  | [] => None
  | c :: cs => if String.eqb (fst c) col then Some 0 else S <$> get_loc cs col
  end.

Definition column_at (d : DataFrame) (j : nat) : list cell :=
  map (fun r => cell_at r j) (rows d).

(** [df[col]] *)
Definition getitem (d : DataFrame) (col : string) : option Series :=
  j ← get_loc (columns d) col;
  c ← columns d !! j;
  Some (mkSeries (snd c) (column_at d j)).

(** [df[col].isnull().sum()] for a label of [df]. *)
Definition isnull_sum (d : DataFrame) (col : string) : nat :=
  match getitem d col with
  | Some s => mask_sum (map isnull (values s))
  | None => 0
  end.

(** [df.loc[mask, labels]] as a new table. *)
Definition loc_get (d : DataFrame) (mask : list bool) (labels : list string)
  : option DataFrame :=
  js ← mapM (get_loc (columns d)) labels;
  cs ← mapM (fun j => columns d !! j) js;
  Some (mkDataFrame cs (map (fun r => map (cell_at r) js) (select mask (rows d)))).

(** [df.loc[mask, col] = vals] on the rows: the masked rows take the values
    in order, every other row is kept. *)
Fixpoint assign (j : nat) (mask : list bool) (rs : list (list cell))
  (vals : list value) : list (list cell) :=
  match mask, rs with
  | b :: m, r :: rs' =>
      if b then
        match vals with
        | v :: vs => <[j := Some v]> r :: assign j m rs' vs
        | [] => r :: rs'
        end
      else r :: assign j m rs' vals
  | _, _ => rs
  end.

(** [df.dropna(axis=0, how='all')] *)
Definition dropna_all (d : DataFrame) : DataFrame :=
  mkDataFrame (columns d) (List.filter (fun r => existsb notna r) (rows d)).

(** ** Dtype predicates *)

(** [pd.api.types.is_numeric_dtype]: integers, floats, complex numbers and
    booleans. *)
Definition is_numeric_dtype (t : dtype) : bool :=
  match t with
  | int64 | float64 | complex128 | bool_ => true
  | _ => false
  end.

(** [pd.api.types.is_object_dtype] *)
Definition is_object_dtype (t : dtype) : bool :=
  match t with object => true | _ => false end.

(** [select_dtypes(include=['object', 'category'])] *)
Definition included_object_category (t : dtype) : bool :=
  match t with object | category => true | _ => false end.

(** [select_dtypes(include=['number'])]: the dtypes whose scalar type
    derives from [np.number]. These are the integers, the floats, the
    complex numbers and also the time deltas ([np.timedelta64] derives from
    [np.signedinteger]); booleans and dates are left out. *)
Definition included_number (t : dtype) : bool :=
  match t with
  | int64 | float64 | complex128 | timedelta64 => true
  | _ => false
  end.

Definition select_dtypes (include : dtype -> bool) (d : DataFrame) : list string :=
  map fst (List.filter (fun c => include (snd c)) (columns d)).

Definition detect_column_types (d : DataFrame) : list string * list string :=
  let categorical_cols := select_dtypes included_object_category d in
  let numeric_cols := select_dtypes included_number d in
  (categorical_cols, numeric_cols).

Definition mem (x : string) (l : list string) : bool := existsb (String.eqb x) l.

(** ** The scikit-learn interface *)

Inductive estimator : Type :=
| RandomForestRegressor (n_estimators : nat) (random_state : Z)
| RandomForestClassifier (n_estimators : nat) (random_state : Z).

Inductive scorer : Type := mean_squared_error | accuracy_score.

(** What the code uses of scikit-learn. [fitted] is a fitted
    (preprocessor, model) pair. A library call that raises returns [None].
    A prediction is a value: a class label seen in training, or an average
    of training targets. *)
Class Sklearn : Type :=
  { fitted : Type;
    score : Type;
    train_test_split :
      DataFrame -> Series -> forall (test_size_percent : nat) (random_state : Z),
      DataFrame * DataFrame * Series * Series;
    fit_steps :
      forall (num_features cat_features : list string) (model : estimator),
      DataFrame -> Series -> option fitted;
    predict_steps : fitted -> DataFrame -> option (list value);
    apply_scorer : scorer -> Series -> list value -> option score }.

(** ** State, exceptions and the monad of the embedding *)

(** [ReferenceError] is the outcome of reading a reference that is not in
    the store, which a Python program cannot do. *)
Inductive exn : Type :=
| KeyError
| ValueError
| TypeError
| FileNotFoundError (path : string)
| EstimatorError
| ReferenceError.

Inductive outcome (A : Type) : Type :=
| Return (a : A)
| Raise (e : exn).
Arguments Return {A} a.
Arguments Raise {A} e.

Definition ref : Type := nat.

Section Imputer.
Context `{SK : Sklearn}.

(** A [Pipeline] object after [fit]: the column transformer records the
    labels of the table it was fitted on ([feature_names_in_]). *)
Record Pipeline : Type := mkPipeline
  { feature_names_in_ : list string;
    named_steps : fitted }.

(** The store of tables and the model directory. A file is looked up under
    the path string the code builds with [os.path.join]; two strings that
    the file system resolves to one file are two keys here. *)
Record world : Type := mkWorld
  { heap : list DataFrame;
    dirs : gset string;
    files : gmap string Pipeline }.

Definition M (A : Type) : Type := world -> outcome A * world.

#[global] Instance M_ret : MRet M := fun A a w => (Return a, w).

#[global] Instance M_bind : MBind M := fun A B k m w =>
  match m w with
  | (Return a, w') => k a w'
  | (Raise e, w') => (Raise e, w')
  end.

Definition raise {A : Type} (e : exn) : M A := fun w => (Raise e, w).

Definition or_raise {A : Type} (e : exn) (o : option A) : M A :=
  match o with Some a => mret a | None => raise e end.

(** Reading the table a reference points to. *)
Definition deref (df : ref) : M DataFrame := fun w =>
  match heap w !! df with
  | Some d => (Return d, w)
  | None => (Raise ReferenceError, w)
  end.

(** A new object, and the update of an object in place. *)
Definition alloc (d : DataFrame) : M ref := fun w =>
  (Return (length (heap w)), mkWorld (heap w ++ [d]) (dirs w) (files w)).

Definition store (df : ref) (d : DataFrame) : M unit := fun w =>
  (Return tt, mkWorld (<[df := d]> (heap w)) (dirs w) (files w)).

(** [df.copy()]: a new object holding the same table. *)
Definition copy (df : ref) : M ref :=
  d ← deref df;
  alloc d.

(** [df.loc[mask, col] = vals], in place: one value per selected row, or
    pandas raises. The dtypes of the header are kept. *)
Definition loc_set (df : ref) (mask : list bool) (col : string)
  (vals : list value) : M unit :=
  d ← deref df;
  j ← or_raise KeyError (get_loc (columns d) col);
  if negb (length vals =? mask_sum mask) then raise ValueError
  else store df (mkDataFrame (columns d) (assign j mask (rows d) vals)).

(** [os.makedirs(path, exist_ok=True)]: the directory is recorded under the
    string the code passes. The missing parents that the call creates on
    the way, and its failure on a path that cannot be created, are not part
    of the model. *)
Definition os_makedirs (path : string) : M unit := fun w =>
  (Return tt, mkWorld (heap w) ({[path]} ∪ dirs w) (files w)).

(** [os.path.join] on POSIX paths. *)
Definition os_path_join (a b : string) : string :=
  if String.prefix "/" b then b
  else if String.eqb a "" then b
  else if String.eqb (String.substring (String.length a - 1) 1 a) "/" then a +:+ b
  else a +:+ "/" +:+ b.

Definition os_path_exists (path : string) : M bool := fun w =>
  (Return (bool_decide (is_Some (files w !! path))), w).

Definition joblib_dump (p : Pipeline) (path : string) : M unit := fun w =>
  (Return tt, mkWorld (heap w) (dirs w) (<[path := p]> (files w))).

Definition joblib_load (path : string) : M Pipeline := fun w =>
  match files w !! path with
  | Some p => (Return p, w)
  | None => (Raise (FileNotFoundError path), w)
  end.

(** [Pipeline.fit] and [Pipeline.predict] *)
Definition pipeline_fit (num_features cat_features : list string)
  (model : estimator) (X : DataFrame) (y : Series) : M Pipeline :=
  f ← or_raise EstimatorError (fit_steps num_features cat_features model X y);
  mret (mkPipeline (names X) f).

Definition pipeline_predict (p : Pipeline) (X : DataFrame) : M (list value) :=
  or_raise EstimatorError (predict_steps (named_steps p) X).

(** [np.maximum(0, predicted_values)]; not defined on strings and dates. *)
Definition maximum0 (v : value) : option value :=
  match v with
  | VNum x => Some (VNum (Z.max 0 x))
  | _ => None
  end.

Definition np_maximum0 (vs : list value) : M (list value) :=
  or_raise TypeError (mapM maximum0 vs).

(** ** The three functions *)

(** The result is [Some (pipeline, features)], or [None] for the pair
    [(None, None)] of a skipped training. *)
Definition train_imputation_model (df : ref) (target_column model_dir : string)
  (random_state : Z) : M (option (Pipeline * list string)) :=
  os_makedirs model_dir;;
  d0 ← deref df;
  (* Remove fully-null rows *)
  let df := dropna_all d0 in
  (* Detect column types *)
  let '(categorical_cols, numeric_cols) := detect_column_types df in
  (* Only use fully available columns as features (excluding the target) *)
  let features :=
    List.filter (fun col => negb (String.eqb col target_column)
                            && (isnull_sum df col =? 0)) (names df) in
  (* Prepare train data *)
  t ← or_raise KeyError (getitem df target_column);
  let mask := map notna (values t) in
  X ← or_raise KeyError (loc_get df mask features);
  let y := mkSeries (s_dtype t) (select mask (values t)) in
  if shape0 X <? 10 then mret None
  else
    (* Determine task type *)
    let '(model, scorer) :=
      if is_numeric_dtype (s_dtype y)
      then (RandomForestRegressor 100 random_state, mean_squared_error)
      else (RandomForestClassifier 100 random_state, accuracy_score) in
    (* Separate usable features *)
    let cat_features := List.filter (fun col => mem col categorical_cols) features in
    let num_features := List.filter (fun col => mem col numeric_cols) features in
    (* Train and evaluate *)
    let '(X_train, X_test, y_train, y_test) := train_test_split X y 20 random_state in
    pipeline ← pipeline_fit num_features cat_features model X_train y_train;
    y_pred ← pipeline_predict pipeline X_test;
    _ ← or_raise EstimatorError (apply_scorer scorer y_test y_pred);
    (* Save model *)
    let model_path := os_path_join model_dir (target_column +:+ "_model.pkl") in
    joblib_dump pipeline model_path;;
    mret (Some (pipeline, features)).

Definition impute_missing_values (df : ref) (target_column model_dir : string)
  : M ref :=
  let model_path := os_path_join model_dir (target_column +:+ "_model.pkl") in
  found ← os_path_exists model_path;
  if negb found then mret df
  else
    pipeline ← joblib_load model_path;
    let feature_names := feature_names_in_ pipeline in
    d ← deref df;
    t ← or_raise KeyError (getitem d target_column);
    let mask := map isnull (values t) in
    if mask_sum mask =? 0 then mret df
    else
      X_missing ← or_raise KeyError (loc_get d mask feature_names);
      predicted_values ← pipeline_predict pipeline X_missing;
      predicted_values ←
        (if is_numeric_dtype (s_dtype t) then np_maximum0 predicted_values
         else mret predicted_values);
      loc_set df mask target_column predicted_values;;
      mret df.

(** [df.columns[df.isnull().sum() > 0]]: the labels of the columns that
    hold a null, picked by position. *)
Definition target_cols (d : DataFrame) : list string :=
  select (map (fun j => 0 <? mask_sum (map isnull (column_at d j)))
              (seq 0 (length (columns d))))
         (names d).

Definition eligible (d : DataFrame) (col : string) : bool :=
  match getitem d col with
  | Some s => is_numeric_dtype (s_dtype s) || is_object_dtype (s_dtype s)
  | None => false
  end.

Definition eligible_cols (d : DataFrame) : list string :=
  List.filter (eligible d) (target_cols d).

(** One turn of the loop of [fill_null_ML]. *)
Definition process_col (model_dir : string) (df : ref) (col : string) : M ref :=
  r ← train_imputation_model df col model_dir 42;
  match r with
  | Some _ => impute_missing_values df col model_dir
  | None => mret df
  end.

Fixpoint process_cols (model_dir : string) (cols : list string) (df : ref) : M ref :=
  match cols with
  | [] => mret df
  | col :: cols' => df' ← process_col model_dir df col; process_cols model_dir cols' df'
  end.

Definition fill_null_ML (df : ref) (model_dir : string) : M ref :=
  df ← copy df;
  d ← deref df;
  process_cols model_dir (eligible_cols d) df.

End Imputer.

(** ** Notions used to state the properties *)

(** What [assign] does to a row when there is one value per masked row:
    a row whose cell in column [j] is null takes a value there, every other
    row is kept. *)
Definition set_where_null (P : value -> Prop) (j : nat) (r r' : list cell) : Prop :=
  if isnull (cell_at r j) then exists v, P v /\ r' = <[j := Some v]> r
  else r' = r.

(** [fills T d d']: [d'] is [d] with some null cells of the columns in [T]
    filled; the header, the shape and every other cell are those of [d]. *)
Definition row_fills (T : nat -> Prop) (r r' : list cell) : Prop :=
  length r' = length r /\
  forall j, cell_at r' j = cell_at r j \/ (T j /\ cell_at r j = None).

Definition fills (T : nat -> Prop) (d d' : DataFrame) : Prop :=
  columns d' = columns d /\ Forall2 (row_fills T) (rows d) (rows d').

(** The non-null cells of column [j], and of the whole table
    ([df.notna().sum().sum()]). *)
Definition labelled_at (d : DataFrame) (j : nat) : nat :=
  mask_sum (map notna (column_at d j)).

Definition count_notna (d : DataFrame) : nat :=
  sum_list (map (fun r => mask_sum (map notna r)) (rows d)).

(** Whether the loop over [cols] leaves a value in column [j] of a row of
    length [len]: [j] is the position of a label of [cols], with ten
    labelled rows. *)
Definition settled (d : DataFrame) (cols : list string) (len j : nat) : bool :=
  existsb (fun col => bool_decide (get_loc (columns d) col = Some j)) cols
  && (10 <=? labelled_at d j) && (j <? len).

(** [same_nulls d cols r r']: row [r'] has the nulls of [r] that the loop
    over [cols] does not fill. *)
Definition same_nulls (d : DataFrame) (cols : list string) (r r' : list cell) : Prop :=
  length r' = length r /\
  forall j, isnull (cell_at r' j)
            = isnull (cell_at r j) && negb (settled d cols (length r) j).

(** What a value written into a column of dtype [dt] must satisfy. *)
Definition written_ok (dt : dtype) (v : value) : Prop :=
  is_numeric_dtype dt = true -> exists x, v = VNum x /\ (0 <= x)%Z.

Section Notions.
Context `{SK : Sklearn}.

Definition model_path (model_dir target_column : string) : string :=
  os_path_join model_dir (target_column +:+ "_model.pkl").

(** The number of rows [train_imputation_model] can learn from: the rows
    of [df.dropna(how='all')] whose target is not null. *)
Definition labelled_rows (d : DataFrame) (target_column : string) : option nat :=
  s ← getitem (dropna_all d) target_column;
  Some (mask_sum (map notna (values s))).

(** [fill_null_ML] with the loop run over a given list of columns. *)
Definition fill_null_ML_order (cols : list string) (df : ref) (model_dir : string)
  : M ref :=
  df ← copy df;
  process_cols model_dir cols df.

(** The columns the loop writes to: the position of a label of [cols] that
    has ten labelled rows. *)
Definition imputed (d : DataFrame) (cols : list string) (j : nat) : Prop :=
  exists col, col ∈ cols /\ get_loc (columns d) col = Some j /\ 10 <= labelled_at d j.

(** The invariant of the data model at the moment [impute_missing_values]
    is called for [target_column]: an artifact is there, and the columns it
    expects are columns of the table without a null. *)
Definition features_populated (w : world) (df : ref) (target_column model_dir : string)
  : Prop :=
  exists p d, files w !! model_path model_dir target_column = Some p /\
    heap w !! df = Some d /\
    forall f, f ∈ feature_names_in_ p ->
      exists j, get_loc (columns d) f = Some j /\
        mask_sum (map isnull (column_at d j)) = 0.

(** Running a computation: [post m w Q] when [Q] holds of the outcome and
    the final state of [m] started in [w]. *)
Definition post {A : Type} (m : M A) (w : world)
  (Q : outcome A -> world -> Prop) : Prop :=
  Q (fst (m w)) (snd (m w)).

End Notions.

(** ** A concrete learner

    A lookup table in place of the random forest, to run the code: fitting
    keeps the training rows (on the columns the transformer uses) with their
    labels, predicting returns the label of the first training row equal to
    the query, or the first label when there is none. Like scikit-learn it
    refuses a table left with no usable column. The split is not shuffled. *)
Module Lookup.

Definition project (used : list string) (X : DataFrame) (r : list cell)
  : list cell :=
  omap (fun col => cell_at r <$> get_loc (columns X) col) used.

Record table : Type := mkTable
  { used : list string;
    entries : list (list cell * value) }.

Definition labelled (X : DataFrame) (used : list string) (y : Series)
  : list (list cell * value) :=
  omap (fun ry => match snd ry with
                  | Some v => Some (project used X (fst ry), v)
                  | None => None
                  end)
       (zip (rows X) (values y)).

Definition fit (num_features cat_features : list string) (model : estimator)
  (X : DataFrame) (y : Series) : option table :=
  match (num_features ++ cat_features)%list with
  | [] => None
  | used => Some (mkTable used (labelled X used y))
  end.

Definition predict_row (t : table) (X : DataFrame) (r : list cell)
  : option value :=
  match List.find (fun e => bool_decide (fst e = project (used t) X r)) (entries t) with
  | Some e => Some (snd e)
  | None => snd <$> head (entries t)
  end.

Definition predict (t : table) (X : DataFrame) : option (list value) :=
  mapM (predict_row t X) (rows X).

Definition split (X : DataFrame) (y : Series) (test_size_percent : nat)
  (random_state : Z) : DataFrame * DataFrame * Series * Series :=
  let n := shape0 X in
  let n_test := (n * test_size_percent + 99) / 100 in
  let n_train := n - n_test in
  (mkDataFrame (columns X) (take n_train (rows X)),
   mkDataFrame (columns X) (drop n_train (rows X)),
   mkSeries (s_dtype y) (take n_train (values y)),
   mkSeries (s_dtype y) (drop n_train (values y))).

#[export] Instance learner : Sklearn :=
  {| fitted := table;
     score := unit;
     train_test_split := split;
     fit_steps := fit;
     predict_steps := predict;
     apply_scorer := fun _ _ _ => Some tt |}.

Definition empty_world : world := mkWorld [] ∅ ∅.

End Lookup.


(** ** Tables to run the code on *)
Module Tables.

Definition num (x : Z) : cell := Some (VNum x).
Definition str (s : string) : cell := Some (VStr s).

(** Two numeric columns without a null and a text column with two. *)
Definition videos : DataFrame :=
  mkDataFrame [("views", int64); ("likes", int64); ("category", object)]
    [ [num 1; num 2; str "news"];   [num 2; num 4; str "music"];
      [num 3; num 6; str "news"];   [num 4; num 8; str "music"];
      [num 5; num 10; str "news"];  [num 6; num 12; str "music"];
      [num 7; num 14; str "news"];  [num 8; num 16; str "music"];
      [num 9; num 18; str "news"];  [num 10; num 20; str "music"];
      [num 4; num 8; None];         [num 20; num 40; None] ].

(** Eight rows, six of them with a rating. *)
Definition ratings : DataFrame :=
  mkDataFrame [("views", int64); ("rating", float64)]
    [ [num 1; num 5]; [num 2; num 4]; [num 3; None]; [num 4; num 3];
      [num 5; num 5]; [num 6; None];  [num 7; num 2]; [num 8; num 1] ].

(** Ten full rows and one that is null everywhere. *)
Definition with_empty_row : DataFrame :=
  mkDataFrame [("a", float64); ("b", float64)]
    (replicate 10 [num 1; num 2] ++ [[None; None]])%list.

(** A column of dtype [category] with nulls, next to a full one. *)
Definition tagged : DataFrame :=
  mkDataFrame [("views", int64); ("tag", category)]
    (replicate 11 [num 1; str "x"] ++ [[num 1; None]])%list.

(** Columns [a] and [b] have one null each; [c] is full. *)
Definition ordered : DataFrame :=
  mkDataFrame [("a", float64); ("b", float64); ("c", float64)]
    ([ [num 1; num 10; num 0]; [num 2; num 20; num 0] ]
     ++ replicate 8 [num 3; num 30; num 1]
     ++ [ [None; num 10; num 0]; [num 2; None; num 0] ])%list.

(** A float column with a negative label and a null. *)
Definition signed : DataFrame :=
  mkDataFrame [("x", int64); ("delta", float64)]
    (replicate 10 [num 1; num (-5)] ++ [[num 1; None]])%list.

(** A duration and a flag next to a count. *)
Definition timed : DataFrame :=
  mkDataFrame [("views", int64); ("watched", timedelta64); ("seen", bool_)]
    [ [num 1; Some (VTime 60); num 1]; [num 2; Some (VTime 90); num 0] ].

(** The full rows of [videos]. *)
Definition complete : DataFrame :=
  mkDataFrame (columns videos) (take 10 (rows videos)).

(** A table with the text column but without [likes]. *)
Definition narrow : DataFrame :=
  mkDataFrame [("views", int64); ("category", object)]
    [ [num 1; str "news"]; [num 2; None] ].

(** The state in which [d] is the only table and nothing is on disk. *)
Definition only (d : DataFrame) : world (SK := Lookup.learner) :=
  mkWorld [d] ∅ ∅.

(** The state [train_imputation_model] leaves for column [delta] of
    [signed], whose labels are all negative. *)
Definition signed_trained : world (SK := Lookup.learner) :=
  snd (train_imputation_model 0 "delta" "m" 42 (only signed)).

(** The state after training for column [category] of [videos], and this
    model directory next to other tables. *)
Definition videos_trained : world (SK := Lookup.learner) :=
  snd (train_imputation_model 0 "category" "m" 42 (only videos)).

Definition beside (d : DataFrame) : world (SK := Lookup.learner) :=
  mkWorld [d] (dirs videos_trained) (files videos_trained).

End Tables.
(** * Properties *)

(** Splitting a conjunction, and nothing else, into its parts. *)
Ltac splits := repeat lazymatch goal with |- _ /\ _ => split end.

(** ** Lists, masks and labels *)

Lemma get_loc_Some cols col j :
  get_loc cols col = Some j -> exists dt, cols !! j = Some (col, dt).
Proof.
  revert j. induction cols as [|[n dt] cs IH]; intros j; simpl; [done|].
  destruct (String.eqb n col) eqn:E.
  - intros [= <-]. apply String.eqb_eq in E as ->. by exists dt.
  - destruct (get_loc cs col) as [k|]; simpl; [|done].
    intros [= <-]. simpl. by apply IH.
Qed.

Lemma get_loc_lt cols col j : get_loc cols col = Some j -> j < length cols.
Proof.
  intros H. apply get_loc_Some in H as [dt H]. by apply lookup_lt_Some in H.
Qed.

Lemma get_loc_None cols col : get_loc cols col = None -> col ∉ map fst cols.
Proof.
  induction cols as [|[n dt] cs IH]; simpl; [intros _; apply not_elem_of_nil|].
  destruct (String.eqb n col) eqn:E; [done|].
  destruct (get_loc cs col); [done|]. intros _.
  apply String.eqb_neq in E. rewrite not_elem_of_cons. auto.
Qed.

Lemma get_loc_elem_of cols col :
  col ∈ map fst cols -> is_Some (get_loc cols col).
Proof.
  intros H. destruct (get_loc cols col) eqn:E; [eauto|].
  by apply get_loc_None in E.
Qed.

(** With distinct labels the position of a label is where it stands. *)
Lemma get_loc_NoDup cols col dt j :
  NoDup (map fst cols) -> cols !! j = Some (col, dt) -> get_loc cols col = Some j.
Proof.
  revert j. induction cols as [|[n d] cs IH]; intros j Hnd Hj; [done|].
  simpl in *. apply NoDup_cons in Hnd as [Hn Hnd].
  destruct j as [|j]; simpl in *.
  - injection Hj as -> ->. by rewrite String.eqb_refl.
  - destruct (String.eqb n col) eqn:E.
    + apply String.eqb_eq in E as ->. exfalso. apply Hn.
      apply list_elem_of_fmap. exists (col, dt). split; [done|].
      by eapply list_elem_of_lookup_2.
    + by rewrite (IH j Hnd Hj).
Qed.

Lemma mask_sum_select {A} (mask : list bool) (xs : list A) :
  length mask = length xs -> length (select mask xs) = mask_sum mask.
Proof.
  revert xs. induction mask as [|b m IH]; intros [|x xs]; simpl; try done.
  intros [= H]. destruct b; simpl; by rewrite IH.
Qed.

Lemma mask_sum_0 (mask : list bool) :
  mask_sum mask = 0 <-> Forall (fun b => b = false) mask.
Proof.
  induction mask as [|[] m IH]; simpl.
  - split; [constructor|done].
  - split; [lia|]. by intros [? ?]%Forall_cons.
  - rewrite IH. split; [by constructor|]. by intros [? ?]%Forall_cons.
Qed.

Lemma cell_at_insert_ne (r : list cell) j j' c :
  j ≠ j' -> cell_at (<[j := c]> r) j' = cell_at r j'.
Proof. intros H. unfold cell_at. by rewrite list_lookup_insert_ne. Qed.

Lemma cell_at_insert_eq (r : list cell) j c :
  j < length r -> cell_at (<[j := c]> r) j = c.
Proof. intros H. unfold cell_at. by rewrite list_lookup_insert_eq. Qed.

Lemma assign_set_where_null P j rs vals :
  length vals = mask_sum (map isnull (map (fun r => cell_at r j) rs)) ->
  Forall P vals ->
  Forall2 (set_where_null P j) rs
    (assign j (map isnull (map (fun r => cell_at r j) rs)) rs vals).
Proof.
  revert vals. induction rs as [|r rs IH]; intros vals Hlen HP; simpl.
  - constructor.
  - simpl in Hlen. destruct (isnull (cell_at r j)) eqn:E.
    + destruct vals as [|v vs]; [done|].
      apply Forall_cons in HP as [Hv HP]. simpl in Hlen.
      constructor; [|apply IH; [lia|done]].
      unfold set_where_null. rewrite E. eauto.
    + constructor; [|by apply IH].
      unfold set_where_null. by rewrite E.
Qed.

Lemma set_where_null_fills P j r r' :
  set_where_null P j r r' -> row_fills (eq j) r r'.
Proof.
  unfold set_where_null, row_fills.
  destruct (cell_at r j) as [v|] eqn:E; simpl.
  - intros ->. auto.
  - intros (v & _ & ->). split; [by rewrite length_insert|].
    intros j'. destruct (decide (j = j')) as [<-|Hne]; [auto|].
    left. by apply cell_at_insert_ne.
Qed.

Lemma row_fills_refl T r : row_fills T r r.
Proof. split; auto. Qed.

Lemma row_fills_trans (T : nat -> Prop) r1 r2 r3 :
  row_fills T r1 r2 -> row_fills T r2 r3 -> row_fills T r1 r3.
Proof.
  intros [L1 H1] [L2 H2]. split; [congruence|].
  intros j. destruct (H1 j) as [E1|[? E1]], (H2 j) as [E2|[? E2]]; auto.
  - left. congruence.
  - right. split; [done|]. congruence.
Qed.

Lemma row_fills_mono (T T' : nat -> Prop) r r' :
  (forall j, T j -> T' j) -> row_fills T r r' -> row_fills T' r r'.
Proof.
  intros HT [L H]. split; [done|].
  intros j. destruct (H j) as [?|[? ?]]; auto.
Qed.

Lemma fills_refl T d : fills T d d.
Proof. split; [done|]. apply Forall_Forall2_diag, Forall_forall. intros; apply row_fills_refl. Qed.

Lemma fills_trans T d1 d2 d3 : fills T d1 d2 -> fills T d2 d3 -> fills T d1 d3.
Proof.
  intros [C1 H1] [C2 H2]. split; [congruence|].
  clear C1 C2. revert H2. generalize (rows d3).
  induction H1; intros l3 H3; inversion H3; subst; constructor; eauto using row_fills_trans.
Qed.

Lemma fills_mono (T T' : nat -> Prop) d d' :
  (forall j, T j -> T' j) -> fills T d d' -> fills T' d d'.
Proof.
  intros HT [C H]. split; [done|].
  eapply Forall2_impl; [exact H|]. intros; by eapply row_fills_mono.
Qed.

Lemma fills_column T d d' j :
  fills T d d' -> column_at d' j = column_at d j \/ T j.
Proof.
  intros [_ H]. unfold column_at.
  induction H as [|r r' rs rs' [_ Hr] _ IH]; [by left|].
  destruct (Hr j) as [E|[HT _]]; [|by right].
  destruct IH as [IH|HT]; [|by right].
  left. simpl. by rewrite E, IH.
Qed.

(** ** Reading a column *)

Lemma getitem_inv d col s :
  getitem d col = Some s ->
  exists j dt, get_loc (columns d) col = Some j /\ columns d !! j = Some (col, dt) /\
    s = mkSeries dt (column_at d j).
Proof.
  unfold getitem. intros H.
  destruct (get_loc (columns d) col) as [j|] eqn:Hj; simpl in H; [|done].
  destruct (get_loc_Some _ _ _ Hj) as [dt Hdt].
  rewrite Hdt in H. simpl in H. injection H as <-. eauto.
Qed.

Lemma getitem_get_loc d col j :
  get_loc (columns d) col = Some j ->
  exists dt, columns d !! j = Some (col, dt) /\
    getitem d col = Some (mkSeries dt (column_at d j)).
Proof.
  intros Hj. destruct (get_loc_Some _ _ _ Hj) as [dt Hdt].
  exists dt. split; [done|]. unfold getitem. rewrite Hj. simpl. by rewrite Hdt.
Qed.

(** Dropping the rows that are null everywhere removes no labelled row. *)
Lemma all_null_cell_at (r : list cell) j :
  existsb notna r = false -> notna (cell_at r j) = false.
Proof.
  intros H. unfold cell_at. destruct (r !! j) as [c|] eqn:E; [|done].
  simpl. destruct (notna c) eqn:Hc; [|done].
  assert (existsb notna r = true); [|congruence].
  apply existsb_exists. exists c. split; [|done].
  apply list_elem_of_In. by eapply list_elem_of_lookup_2.
Qed.

Lemma labelled_at_dropna d j : labelled_at (dropna_all d) j = labelled_at d j.
Proof.
  unfold labelled_at, column_at, dropna_all. simpl.
  induction (rows d) as [|r rs IH]; [done|]. simpl.
  destruct (existsb notna r) eqn:E; simpl; [by rewrite IH|].
  by rewrite (all_null_cell_at r j E), IH.
Qed.

Section Labelled.
Context `{SK : Sklearn}.

Lemma labelled_rows_inv d col n :
  labelled_rows d col = Some n ->
  exists j dt, get_loc (columns d) col = Some j /\ columns d !! j = Some (col, dt) /\
    n = labelled_at d j.
Proof.
  unfold labelled_rows. intros H.
  destruct (getitem (dropna_all d) col) as [s|] eqn:Hs; simpl in H; [|done].
  injection H as <-.
  apply getitem_inv in Hs as (j & dt & Hj & Hdt & ->). simpl.
  exists j, dt. repeat split; try done. apply labelled_at_dropna.
Qed.

Lemma labelled_rows_get_loc d col j :
  get_loc (columns d) col = Some j -> labelled_rows d col = Some (labelled_at d j).
Proof.
  intros Hj. unfold labelled_rows.
  destruct (getitem_get_loc (dropna_all d) col j Hj) as (dt & _ & ->). simpl.
  f_equal. apply labelled_at_dropna.
Qed.

End Labelled.

(** [df.loc[mask, labels]] succeeds on labels of the table and has one row
    per selected row. *)
Lemma loc_get_labels d mask labels :
  Forall (fun col => col ∈ names d) labels ->
  exists X, loc_get d mask labels = Some X /\
    shape0 X = length (select mask (rows d)).
Proof.
  intros Hl. unfold loc_get.
  assert (exists js, mapM (get_loc (columns d)) labels = Some js /\
            Forall (fun j => j < length (columns d)) js) as (js & -> & Hjs).
  { induction Hl as [|col labels Hc _ (js & IH & Hjs)].
    - exists []. by split.
    - destruct (get_loc_elem_of _ _ Hc) as [j Hj].
      exists (j :: js). split.
      + apply mapM_Some. constructor; [done|]. by apply mapM_Some.
      + constructor; [by eapply get_loc_lt|done]. }
  simpl.
  assert (exists cs, mapM (fun j => columns d !! j) js = Some cs) as (cs & ->).
  { induction Hjs as [|j js Hj _ (cs & IH)].
    - by exists [].
    - destruct (lookup_lt_is_Some_2 _ _ Hj) as [c Hc].
      exists (c :: cs). apply mapM_Some. constructor; [done|]. by apply mapM_Some. }
  simpl. eexists. split; [done|]. unfold shape0. simpl. by rewrite length_map.
Qed.

Lemma loc_get_shape d mask labels X :
  loc_get d mask labels = Some X -> shape0 X = length (select mask (rows d)).
Proof.
  unfold loc_get. intros H.
  destruct (mapM (get_loc (columns d)) labels) as [js|]; simpl in H; [|done].
  destruct (mapM (fun j => columns d !! j) js) as [cs|]; simpl in H; [|done].
  injection H as <-. unfold shape0. simpl. by rewrite length_map.
Qed.

Lemma maximum0_nonneg vs vs' :
  mapM maximum0 vs = Some vs' ->
  Forall (fun v => exists x, v = VNum x /\ (0 <= x)%Z) vs'.
Proof.
  intros H%mapM_Some. induction H as [|v v' vs vs' Hv _ IH]; constructor; [|done].
  destruct v; simpl in Hv; try done. injection Hv as <-.
  eexists. split; [done|]. lia.
Qed.

(** ** Running the monad *)

Section Runs.
Context `{SK : Sklearn}.

Lemma post_ret {A} (a : A) w Q : Q (Return a) w -> post (mret a) w Q.
Proof. done. Qed.

Lemma post_raise {A} e w (Q : outcome A -> world -> Prop) :
  Q (Raise e) w -> post (raise e) w Q.
Proof. done. Qed.

Lemma post_bind {A B} (m : M A) (k : A -> M B) w Q :
  post m w (fun o w1 =>
    match o with
    | Return a => post (k a) w1 Q
    | Raise e => Q (Raise e) w1
    end) ->
  post (m ≫= k) w Q.
Proof.
  unfold post, mbind, M_bind. destruct (m w) as [o w1]. by destruct o.
Qed.

Lemma post_mono {A} (m : M A) w (Q Q' : outcome A -> world -> Prop) :
  (forall o w', Q o w' -> Q' o w') -> post m w Q -> post m w Q'.
Proof. unfold post. auto. Qed.

Lemma post_or_raise {A} e (x : option A) w Q :
  match x with Some a => Q (Return a) w | None => Q (Raise e) w end ->
  post (or_raise e x) w Q.
Proof. by destruct x. Qed.

Lemma post_deref df w Q :
  match heap w !! df with
  | Some d => Q (Return d) w
  | None => Q (Raise ReferenceError) w
  end ->
  post (deref df) w Q.
Proof. unfold post, deref. by destruct (heap w !! df). Qed.

Lemma post_load path w Q :
  match files w !! path with
  | Some p => Q (Return p) w
  | None => Q (Raise (FileNotFoundError path)) w
  end ->
  post (joblib_load path) w Q.
Proof. unfold post, joblib_load. by destruct (files w !! path). Qed.

Lemma post_prim {A} (m : M A) w (Q : outcome A -> world -> Prop) o w' :
  m w = (o, w') -> Q o w' -> post m w Q.
Proof. unfold post. by intros ->. Qed.

End Runs.

(** One step of symbolic execution of a goal [post m w Q]; [E] names the
    equation a case distinction leaves. *)
Ltac mstep_eq E :=
  lazy beta iota;
  lazymatch goal with
  | |- post (@mbind _ _ _ _ _ _) _ _ => apply post_bind
  | |- post (@mret _ _ _ _) _ _ => apply post_ret
  | |- post (raise _) _ _ => apply post_raise
  | |- post (or_raise _ ?x) _ _ =>
      apply post_or_raise; destruct x eqn:E
  | |- post (deref ?df) ?w _ =>
      apply post_deref; simpl heap; destruct (heap _ !! df) eqn:E
  | |- post (joblib_load ?p) ?w _ =>
      apply post_load; simpl files; destruct (files _ !! p) eqn:E
  | |- post (os_makedirs _) _ _ => eapply post_prim; [reflexivity|]
  | |- post (os_path_exists _) _ _ => eapply post_prim; [reflexivity|]
  | |- post (joblib_dump _ _) _ _ => eapply post_prim; [reflexivity|]
  | |- post (store _ _) _ _ => eapply post_prim; [reflexivity|]
  | |- post (alloc _) _ _ => eapply post_prim; [reflexivity|]
  | |- post (if ?b then _ else _) _ _ => destruct b eqn:E
  | |- post (let '(_, _) := ?x in _) _ _ => destruct x eqn:E
  end.

Tactic Notation "mstep" := let E := fresh "E" in mstep_eq E.
Tactic Notation "mstep" "as" ident(E) := mstep_eq E.

Section Specs.
Context `{SK : Sklearn}.

(** What a call of [train_imputation_model] does, whatever its outcome. *)
Lemma train_post (df : ref) (t md : string) (rs : Z) (w : world) :
  post (train_imputation_model df t md rs) w (fun o w' =>
    heap w' = heap w /\ dirs w' = {[md]} ∪ dirs w /\
    match o with
    | Return None =>
        files w' = files w /\
        exists d n, heap w !! df = Some d /\ labelled_rows d t = Some n /\ n < 10
    | Return (Some (p, fs)) =>
        files w' = <[model_path md t := p]> (files w) /\
        exists d n, heap w !! df = Some d /\ labelled_rows d t = Some n /\ 10 <= n
    | Raise e => files w' = files w
    end).
Proof.
  unfold train_imputation_model.
  do 3 mstep. mstep as Hd; [|done]. rename d into d0.
  mstep as Ht. mstep. mstep as Hs; [|done].
  mstep. mstep as HX; [|done]. rename d into X.
  assert (labelled_rows d0 t = Some (shape0 X)) as Hn.
  { unfold labelled_rows. rewrite Hs. simpl. f_equal.
    rewrite (loc_get_shape _ _ _ _ HX).
    apply getitem_inv in Hs as (j & dt & _ & _ & ->). simpl.
    symmetry. apply mask_sum_select. unfold column_at. by rewrite !length_map. }
  mstep as Hlt.
  { mstep. simpl. repeat split; try done.
    exists d0, (shape0 X). repeat split; try done. by apply Nat.ltb_lt. }
  do 4 mstep. unfold pipeline_fit.
  do 2 mstep. mstep; [|done].
  do 2 mstep. unfold pipeline_predict. mstep; [|done].
  mstep. mstep; [|done].
  do 3 mstep. simpl. repeat split; try done.
  exists d0, (shape0 X). repeat split; try done. by apply Nat.ltb_ge.
Qed.

(** What a call of [impute_missing_values] does: either nothing, or one
    write that fills the null cells of the target column. *)
Lemma impute_post (df : ref) (t md : string) (w : world) :
  post (impute_missing_values df t md) w (fun o w' =>
    dirs w' = dirs w /\ files w' = files w /\
    ((heap w' = heap w /\
      forall r, o = Return r -> r = df /\
        (files w !! model_path md t = None \/
         exists d s, heap w !! df = Some d /\ getitem d t = Some s /\
           mask_sum (map isnull (values s)) = 0))
     \/
     (o = Return df /\
      exists d j dt rs', heap w !! df = Some d /\
        get_loc (columns d) t = Some j /\ columns d !! j = Some (t, dt) /\
        Forall2 (set_where_null (written_ok dt) j) (rows d) rs' /\
        heap w' = <[df := mkDataFrame (columns d) rs']> (heap w)))).
Proof.
  unfold impute_missing_values. fold (model_path md t).
  do 2 mstep. mstep as Hex.
  { mstep. repeat split; try done. left. split; [done|].
    intros r [= <-]. split; [done|]. left.
    apply negb_true_iff, bool_decide_eq_false in Hex.
    destruct (files w !! model_path md t); [|done]. exfalso. eauto. }
  mstep. mstep as Hp; [|by repeat split; try left].
  mstep. mstep as Hd; [|by repeat split; try left].
  mstep. mstep as Ht; [|by repeat split; try left].
  mstep as Hm.
  { mstep. repeat split; try done. left. split; [done|].
    intros r [= <-]. split; [done|]. right.
    exists d, s. repeat split; try done. by apply Nat.eqb_eq. }
  mstep. mstep as HX; [|by repeat split; try left].
  mstep. unfold pipeline_predict. mstep as Hpred; [|by repeat split; try left].
  apply getitem_inv in Ht as (j & dt & Hj & Hdt & ->). simpl in *.
  mstep.
  eapply post_mono with (Q := fun o w' => w' = w /\
    forall vs, o = Return vs -> Forall (written_ok dt) vs).
  2:{ destruct (is_numeric_dtype dt) eqn:Hnum.
      - unfold np_maximum0. mstep as Hmax; [|done]. split; [done|].
        intros vs [= <-]. eapply Forall_impl; [by eapply maximum0_nonneg|].
        intros v Hv _. exact Hv.
      - mstep. split; [done|]. intros vs [= <-].
        apply Forall_forall. intros v _ Hn. congruence. }
  intros [vals|e] w1 [-> Hvals]; [|by repeat split; try left].
  specialize (Hvals vals eq_refl).
  mstep. unfold loc_set. mstep. mstep as Hd'; [|by repeat split; try left].
  injection Hd as ->.
  mstep. rewrite Hj. unfold or_raise. mstep.
  mstep as Hlen; [mstep; by repeat split; try left|].
  apply negb_false_iff, Nat.eqb_eq in Hlen.
  do 2 mstep. simpl. repeat split; try done. right. split; [done|].
  exists d, j, dt. eexists. repeat split; try done.
  unfold column_at in *. by apply assign_set_where_null.
Qed.

End Specs.

(** ** Filling preserves what is there *)

Lemma cell_at_cons_0 (c : cell) r : cell_at (c :: r) 0 = c.
Proof. done. Qed.

Lemma cells_notna_le (r r' : list cell) :
  length r' = length r ->
  (forall j, cell_at r' j = cell_at r j \/ cell_at r j = None) ->
  mask_sum (map notna r) <= mask_sum (map notna r').
Proof.
  revert r'. induction r as [|c r IH]; intros [|c' r'] Hlen H; simpl in *; try done.
  assert (mask_sum (map notna r) <= mask_sum (map notna r')) as IH'.
  { apply IH; [lia|]. intros j. exact (H (S j)). }
  destruct (H 0) as [E|E]; rewrite ?cell_at_cons_0 in E; subst; simpl.
  - lia.
  - destruct (notna c'); lia.
Qed.

Lemma row_fills_notna T r r' :
  row_fills T r r' -> mask_sum (map notna r) <= mask_sum (map notna r').
Proof.
  intros [Hlen H]. apply cells_notna_le; [done|].
  intros j. destruct (H j) as [?|[_ ?]]; auto.
Qed.

Lemma fills_count_notna T d d' : fills T d d' -> count_notna d <= count_notna d'.
Proof.
  intros [_ H]. unfold count_notna.
  induction H as [|r r' rs rs' Hr _ IH]; simpl; [done|].
  apply row_fills_notna in Hr. lia.
Qed.

Lemma fills_labelled_at T d d' j : fills T d d' -> labelled_at d j <= labelled_at d' j.
Proof.
  intros [_ H]. unfold labelled_at, column_at.
  induction H as [|r r' rs rs' [_ Hr] _ IH]; simpl; [done|].
  destruct (Hr j) as [->|[_ ->]]; simpl; [lia|].
  destruct (notna (cell_at r' j)); lia.
Qed.

Lemma no_null_set_where_null P j rs :
  mask_sum (map isnull (map (fun r => cell_at r j) rs)) = 0 ->
  Forall2 (set_where_null P j) rs rs.
Proof.
  intros H. apply mask_sum_0 in H. rewrite !Forall_fmap in H.
  apply Forall_Forall2_diag. eapply Forall_impl; [exact H|].
  intros r Hr. simpl in Hr. unfold set_where_null. by rewrite Hr.
Qed.

Lemma set_where_null_weaken (P Q : value -> Prop) j rs rs' :
  (forall v, P v -> Q v) ->
  Forall2 (set_where_null P j) rs rs' -> Forall2 (set_where_null Q j) rs rs'.
Proof.
  intros HPQ H. eapply Forall2_impl; [exact H|].
  intros r r'. unfold set_where_null. destruct (isnull (cell_at r j)); [|done].
  intros (v & Hv & ->). eauto.
Qed.

(** ** The loop of [fill_null_ML] *)

Section Loop.
Context `{SK : Sklearn}.

(** One turn: the table [df] refers to has some nulls of the column filled,
    and nothing else in the store changes. When the turn returns, either the
    column had fewer than ten labelled rows and the table is as it was, or
    every null of the column took a value. *)
Lemma process_col_post (md : string) (df : ref) (col : string) (w : world) d :
  heap w !! df = Some d ->
  post (process_col md df col) w (fun o w' =>
    (forall r, o = Return r -> r = df) /\
    length (heap w') = length (heap w) /\
    (forall l, l ≠ df -> heap w' !! l = heap w !! l) /\
    exists d', heap w' !! df = Some d' /\ fills (imputed d [col]) d d' /\
      (forall r, o = Return r ->
         (exists n, labelled_rows d col = Some n /\ n < 10 /\ d' = d) \/
         (exists j, get_loc (columns d) col = Some j /\ 10 <= labelled_at d j /\
            Forall2 (set_where_null (fun _ => True) j) (rows d) (rows d')))).
Proof.
  intros Hd. unfold process_col. mstep.
  eapply post_mono; [|apply train_post].
  intros [[[p fs]|]|e] w1 (Hh & _ & Hrest); simpl.
  - destruct Hrest as (Hf & d0 & n & Hd0 & Hn & Hle).
    assert (d0 = d) as -> by congruence.
    apply labelled_rows_inv in Hn as (j & dt & Hj & Hdt & ->).
    eapply post_mono; [|apply impute_post].
    intros o w' (_ & _ & [[Hh' Hret]|(-> & d1 & j1 & dt1 & rs' & Hd1 & Hj1 & _ & Hrs & Hh')]).
    + rewrite Hh', Hh. split; [intros r Hr; by apply Hret|].
      do 2 (split; [done|]). exists d. split; [done|]. split; [apply fills_refl|].
      intros r Hr. right. exists j. do 2 (split; [done|]).
      destruct (Hret r Hr) as [_ [Hnone|(d1 & s & Hd1 & Hs & Hz)]].
      * rewrite Hf, lookup_insert_eq in Hnone. done.
      * rewrite Hh in Hd1. assert (d1 = d) as -> by congruence.
        apply getitem_inv in Hs as (j' & dt' & Hj' & _ & ->).
        assert (j' = j) as -> by congruence. simpl in Hz.
        by apply no_null_set_where_null.
    + rewrite Hh in Hd1, Hh'. assert (d1 = d) as -> by congruence.
      assert (j1 = j) as -> by congruence.
      split; [by intros r [= <-]|]. rewrite Hh'.
      split; [by rewrite length_insert|].
      split; [intros l Hl; by rewrite list_lookup_insert_ne|].
      eexists. split; [apply list_lookup_insert_eq; by eapply lookup_lt_Some|].
      split.
      * split; [done|]. simpl. eapply Forall2_impl; [exact Hrs|].
        intros r r' Hr. eapply row_fills_mono; [|by eapply set_where_null_fills].
        intros ? <-. exists col. split; [apply list_elem_of_singleton; done|done].
      * intros _ _. right. exists j. do 2 (split; [done|]). simpl.
        by eapply set_where_null_weaken; [|exact Hrs].
  - destruct Hrest as (_ & d0 & n & Hd0 & Hn & Hlt).
    assert (d0 = d) as -> by congruence.
    mstep. rewrite Hh. split; [by intros r [= <-]|]. do 2 (split; [done|]).
    exists d. split; [done|]. split; [apply fills_refl|].
    intros _ _. left. by exists n.
  - rewrite Hh. do 3 (split; [done|]).
    exists d. split; [done|]. split; [apply fills_refl|done].
Qed.

Lemma imputed_cons d col cols j :
  imputed d [col] j \/ imputed d cols j <-> imputed d (col :: cols) j.
Proof.
  unfold imputed. split.
  - intros [(c & Hc & H)|(c & Hc & H)]; exists c; (split; [|done]).
    + apply list_elem_of_singleton in Hc as ->. apply list_elem_of_here.
    + by apply list_elem_of_further.
  - intros (c & Hc & H). apply elem_of_cons in Hc as [->|Hc].
    + left. exists col. split; [apply list_elem_of_here|done].
    + right. by exists c.
Qed.

Lemma labelled_threshold d d1 col j :
  fills (imputed d [col]) d d1 ->
  (10 <=? labelled_at d1 j) = (10 <=? labelled_at d j).
Proof.
  intros Hf. destruct (fills_column _ _ _ j Hf) as [E|(c & _ & _ & Hle)].
  - unfold labelled_at. by rewrite E.
  - pose proof (fills_labelled_at _ _ _ j Hf).
    rewrite !(proj2 (Nat.leb_le _ _)); [done|lia|lia].
Qed.

Lemma settled_cons d col cols len j :
  settled d (col :: cols) len j = settled d [col] len j || settled d cols len j.
Proof.
  unfold settled. cbn [existsb].
  generalize (existsb (fun col0 => bool_decide (get_loc (columns d) col0 = Some j)) cols).
  intros b.
  destruct (bool_decide (get_loc (columns d) col = Some j)), b,
    (10 <=? labelled_at d j), (j <? len); reflexivity.
Qed.

Lemma settled_fills d d1 col cols len j :
  fills (imputed d [col]) d d1 -> settled d1 cols len j = settled d cols len j.
Proof.
  intros Hf. unfold settled.
  rewrite (labelled_threshold _ _ _ j Hf). by rewrite (proj1 Hf).
Qed.

Lemma same_nulls_nil d r : same_nulls d [] r r.
Proof. split; [done|]. intros j. unfold settled. simpl. by rewrite andb_true_r. Qed.

Lemma same_nulls_step d d1 col cols r r1 r2 :
  fills (imputed d [col]) d d1 ->
  same_nulls d [col] r r1 -> same_nulls d1 cols r1 r2 ->
  same_nulls d (col :: cols) r r2.
Proof.
  intros Hf [L1 H1] [L2 H2]. split; [congruence|].
  intros j. rewrite H2, H1, L1, (settled_cons d col cols), (settled_fills _ _ _ _ _ _ Hf).
  by rewrite negb_orb, andb_assoc.
Qed.

(** A turn that returns leaves the nulls that [same_nulls] describes. *)
Lemma turn_same_nulls d d' col :
  columns d' = columns d ->
  (exists n, labelled_rows d col = Some n /\ n < 10 /\ d' = d) \/
  (exists j, get_loc (columns d) col = Some j /\ 10 <= labelled_at d j /\
     Forall2 (set_where_null (fun _ => True) j) (rows d) (rows d')) ->
  Forall2 (same_nulls d [col]) (rows d) (rows d').
Proof.
  intros Hc [(n & Hn & Hlt & ->)|(j & Hj & Hle & H)].
  - apply Forall_Forall2_diag, Forall_forall. intros r _. split; [done|].
    intros j. unfold settled. cbn [existsb]. rewrite orb_false_r.
    case_bool_decide as Hj; cbn [andb orb negb]; [|by rewrite andb_true_r].
    rewrite (labelled_rows_get_loc _ _ _ Hj) in Hn. injection Hn as <-.
    rewrite (proj2 (Nat.leb_gt _ _)); [|done]. cbn [andb orb negb]. by rewrite andb_true_r.
  - eapply Forall2_impl; [exact H|]. intros r r' Hr.
    assert (forall j', settled d [col] (length r) j'
                       = bool_decide (j' = j) && (j <? length r)) as Hs.
    { intros j'. unfold settled. cbn [existsb]. rewrite orb_false_r.
      case_bool_decide as E1; case_bool_decide as E2; cbn [andb];
        try congruence; try done.
      subst j'. by rewrite (proj2 (Nat.leb_le _ _) Hle). }
    unfold set_where_null in Hr.
    destruct (isnull (cell_at r j)) eqn:E.
    + destruct Hr as (v & _ & ->). split; [by rewrite length_insert|].
      intros j'. rewrite Hs. case_bool_decide as Hj'; cbn [andb negb].
      * subst j'. rewrite E. destruct (j <? length r) eqn:Hlt; cbn [andb negb].
        -- apply Nat.ltb_lt in Hlt. by rewrite cell_at_insert_eq.
        -- apply Nat.ltb_ge in Hlt. by rewrite list_insert_ge, E.
      * rewrite andb_true_r. rewrite cell_at_insert_ne; [done|congruence].
    + subst r'. split; [done|]. intros j'. rewrite Hs.
      case_bool_decide as Hj'; cbn [andb negb]; [|by rewrite andb_true_r].
      subst j'. by rewrite E.
Qed.

(** The loop: only the table [df] refers to changes, by filling nulls of
    the columns in [cols] that have ten labelled rows; when the loop returns,
    these nulls are all filled. *)
Lemma process_cols_post (md : string) (cols : list string) (df : ref) (w : world) d :
  heap w !! df = Some d ->
  post (process_cols md cols df) w (fun o w' =>
    (forall r, o = Return r -> r = df) /\
    length (heap w') = length (heap w) /\
    (forall l, l ≠ df -> heap w' !! l = heap w !! l) /\
    exists d', heap w' !! df = Some d' /\ fills (imputed d cols) d d' /\
      (forall r, o = Return r -> Forall2 (same_nulls d cols) (rows d) (rows d'))).
Proof.
  revert w d. induction cols as [|col cols IH]; intros w d Hd; simpl.
  - mstep. split; [by intros r [= <-]|]. do 2 (split; [done|]).
    exists d. split; [done|]. split; [apply fills_refl|]. intros _ _.
    apply Forall_Forall2_diag, Forall_forall. intros; apply same_nulls_nil.
  - mstep. eapply post_mono; [|by apply process_col_post].
    intros o w1 (Hr & Hlen & Hfr & d1 & Hd1 & Hf1 & Hex).
    destruct o as [r|e].
    + rewrite (Hr r eq_refl).
      eapply post_mono; [|by apply IH].
      intros o' w' (Hr' & Hlen' & Hfr' & d' & Hd' & Hf' & Hex').
      split; [done|]. split; [congruence|].
      split; [intros l Hl; rewrite Hfr', Hfr; done|].
      exists d'. split; [done|]. split.
      * eapply fills_trans.
        -- eapply fills_mono; [|exact Hf1]. intros j Hj. apply imputed_cons. by left.
        -- eapply fills_mono; [|exact Hf']. intros j (c & Hc & Hj & Hle).
           apply imputed_cons. right. exists c. split; [done|].
           rewrite <- (proj1 Hf1). split; [done|].
           apply Nat.leb_le. rewrite <- (labelled_threshold _ _ _ j Hf1).
           by apply Nat.leb_le.
      * intros r' Hret. specialize (Hex' r' Hret).
        pose proof (turn_same_nulls d d1 col (proj1 Hf1) (Hex r eq_refl)) as H1.
        clear -H1 Hex' Hf1. revert Hex'. generalize (rows d').
        induction H1; intros l3 H3; inversion H3; subst; constructor;
          eauto using same_nulls_step.
    + split; [done|]. do 2 (split; [done|]).
      exists d1. split; [done|]. split; [|done].
      eapply fills_mono; [|exact Hf1]. intros j Hj. apply imputed_cons. by left.
Qed.

End Loop.

(** ** [fill_null_ML] as a whole *)

Section Fill.
Context `{SK : Sklearn}.

Lemma fill_null_ML_unfold (df : ref) (md : string) (w : world) d :
  heap w !! df = Some d ->
  fill_null_ML df md w = fill_null_ML_order (eligible_cols d) df md w.
Proof.
  intros Hd. unfold fill_null_ML, fill_null_ML_order, copy, mbind, M_bind, deref, alloc.
  rewrite Hd. simpl. by rewrite list_lookup_middle.
Qed.

(** The loop runs on a new object: every object of the store is kept as it
    is, and the new one is the input with nulls filled. *)
Lemma fill_order_post (cols : list string) (df : ref) (md : string) (w : world) d :
  heap w !! df = Some d ->
  post (fill_null_ML_order cols df md) w (fun o w' =>
    (forall l x, heap w !! l = Some x -> heap w' !! l = Some x) /\
    (forall r, o = Return r -> r = length (heap w)) /\
    exists d', heap w' !! length (heap w) = Some d' /\
      fills (imputed d cols) d d' /\
      (forall r, o = Return r -> Forall2 (same_nulls d cols) (rows d) (rows d'))).
Proof.
  intros Hd. unfold fill_null_ML_order, copy.
  do 2 mstep. mstep as Hd'; [|congruence]. injection Hd as ->.
  mstep. lazy beta iota.
  eapply post_mono; [|apply (process_cols_post md cols _ _ d)].
  2:{ simpl. by apply list_lookup_middle. }
  simpl. intros o w' (Hr & _ & Hfr & d' & Hd1 & Hf & Hex).
  split; [|split].
  - intros l x Hl. rewrite Hfr.
    + by apply lookup_app_l_Some.
    + apply lookup_lt_Some in Hl. lia.
  - done.
  - exists d'. by splits.
Qed.

Lemma fill_post (df : ref) (md : string) (w : world) d :
  heap w !! df = Some d ->
  post (fill_null_ML df md) w (fun o w' =>
    (forall l x, heap w !! l = Some x -> heap w' !! l = Some x) /\
    (forall r, o = Return r -> r = length (heap w)) /\
    exists d', heap w' !! length (heap w) = Some d' /\
      fills (imputed d (eligible_cols d)) d d' /\
      (forall r, o = Return r ->
         Forall2 (same_nulls d (eligible_cols d)) (rows d) (rows d'))).
Proof.
  intros Hd. unfold post. rewrite (fill_null_ML_unfold _ _ _ _ Hd).
  by apply fill_order_post.
Qed.

End Fill.

Lemma fills_full_column T d d' j :
  fills T d d' -> mask_sum (map isnull (column_at d j)) = 0 ->
  column_at d' j = column_at d j.
Proof.
  intros [_ H] Hz. apply mask_sum_0 in Hz. unfold column_at in *.
  rewrite !Forall_fmap in Hz.
  induction H as [|r r' rs rs' [_ Hr] _ IH]; [done|].
  apply Forall_cons in Hz as [Hz Hzs]. simpl in *.
  rewrite (IH Hzs). f_equal.
  destruct (Hr j) as [E|[_ E]]; [done|]. by rewrite E in Hz.
Qed.

Lemma getitem_fills T d d' col j :
  fills T d d' -> get_loc (columns d) col = Some j ->
  column_at d' j = column_at d j -> getitem d' col = getitem d col.
Proof.
  intros [Hc _] Hj E. unfold getitem. rewrite Hc, Hj. simpl. by rewrite E.
Qed.

(** * The properties of the specification *)

Section Claims.
Context `{SK : Sklearn}.

Lemma impute_fills (df : ref) (t md : string) (w : world) d :
  heap w !! df = Some d ->
  post (impute_missing_values df t md) w (fun o w' =>
    (forall l, l ≠ df -> heap w' !! l = heap w !! l) /\
    exists d', heap w' !! df = Some d' /\
      fills (fun j => get_loc (columns d) t = Some j) d d').
Proof.
  intros Hd. eapply post_mono; [|apply impute_post].
  intros o w' (_ & _ & [[Hh _]|(_ & d0 & j & dt & rs' & Hd0 & Hj & _ & Hrs & Hh)]).
  - rewrite Hh. split; [done|]. exists d. split; [done|apply fills_refl].
  - assert (d0 = d) as -> by congruence. rewrite Hh. split.
    + intros l Hl. by rewrite list_lookup_insert_ne.
    + eexists. split; [apply list_lookup_insert_eq; by eapply lookup_lt_Some|].
      split; [done|]. simpl. eapply Forall2_impl; [exact Hrs|].
      intros r r' Hr. eapply row_fills_mono; [|by eapply set_where_null_fills].
      by intros ? <-.
Qed.

Lemma train_skips (df : ref) (t md : string) (rs : Z) (w : world) d n :
  heap w !! df = Some d -> labelled_rows d t = Some n -> n < 10 ->
  train_imputation_model df t md rs w
  = (Return None, mkWorld (heap w) ({[md]} ∪ dirs w) (files w)).
Proof.
  intros Hd Hn Hlt. unfold labelled_rows in Hn.
  destruct (getitem (dropna_all d) t) as [s|] eqn:Hs; simpl in Hn; [|done].
  injection Hn as <-.
  set (features := List.filter
         (fun col => negb (String.eqb col t) && (isnull_sum (dropna_all d) col =? 0))
         (names (dropna_all d))).
  destruct (loc_get_labels (dropna_all d) (map notna (values s)) features)
    as (X & HX & Hshape).
  { apply Forall_forall. intros col Hc. apply list_elem_of_In in Hc.
    apply filter_In in Hc as [Hc _]. by apply list_elem_of_In. }
  assert ((shape0 X <? 10) = true) as HX10.
  { apply Nat.ltb_lt. rewrite Hshape.
    apply getitem_inv in Hs as (j & dt & _ & _ & ->). simpl in *.
    rewrite mask_sum_select; [done|]. unfold column_at. by rewrite !length_map. }
  unfold train_imputation_model, mbind, M_bind, os_makedirs, deref. simpl.
  rewrite Hd. simpl. rewrite Hs. simpl. fold features. rewrite HX. simpl.
  by rewrite HX10.
Qed.

(** C1. [fill_null_ML] operates on a copy: whatever the outcome, the table
    the caller passed is in the store as it was, cell for cell; what is
    returned is a reference to a new object, which holds the input with
    nulls filled. *)
Theorem fill_null_ML_keeps_input (df : ref) (md : string) (w : world) d :
  heap w !! df = Some d ->
  post (fill_null_ML df md) w (fun o w' =>
    heap w' !! df = Some d /\
    forall r, o = Return r ->
      r ≠ df /\ heap w !! r = None /\
      exists d', heap w' !! r = Some d' /\
        fills (imputed d (eligible_cols d)) d d').
Proof.
  intros Hd. eapply post_mono; [|by apply fill_post].
  intros o w' (Hkeep & Hr & d' & Hd' & Hf & _).
  split; [by apply Hkeep|].
  intros r ->%Hr. split; [|split].
  - apply lookup_lt_Some in Hd. lia.
  - by apply lookup_ge_None_2.
  - by exists d'.
Qed.

(** C2. [fill_null_ML] never lowers the number of non-null cells, and a
    column without a null is returned as it was; [impute_missing_values]
    writes only where the target column is null: every other cell of the
    table, and every other object, is as before. *)
Theorem imputation_only_fills (df : ref) (md : string) (w : world) d :
  heap w !! df = Some d ->
  post (fill_null_ML df md) w (fun o w' =>
    forall r, o = Return r ->
      exists d', heap w' !! r = Some d' /\ columns d' = columns d /\
        count_notna d <= count_notna d' /\
        forall j, mask_sum (map isnull (column_at d j)) = 0 ->
          column_at d' j = column_at d j)
  /\
  forall t, post (impute_missing_values df t md) w (fun o w' =>
    (forall l, l ≠ df -> heap w' !! l = heap w !! l) /\
    exists d', heap w' !! df = Some d' /\ columns d' = columns d /\
      Forall2 (fun r r' =>
        length r' = length r /\
        forall j, cell_at r' j ≠ cell_at r j ->
          get_loc (columns d) t = Some j /\ cell_at r j = None)
        (rows d) (rows d')).
Proof.
  intros Hd. split.
  - eapply post_mono; [|by apply fill_post].
    intros o w' (_ & Hr & d' & Hd' & Hf & _) r ->%Hr.
    exists d'. split; [done|]. split; [apply Hf|].
    split; [by eapply fills_count_notna|].
    intros j Hz. by eapply fills_full_column.
  - intros t. eapply post_mono; [|by apply impute_fills].
    intros o w' (Hfr & d' & Hd' & Hc & Hrows).
    split; [done|]. exists d'. split; [done|]. split; [done|].
    eapply Forall2_impl; [exact Hrows|].
    intros r r' [Hlen Hr]. split; [done|].
    intros j Hne. destruct (Hr j) as [E|HT]; [done|exact HT].
Qed.

Lemma post_and {A} (m : M A) w (Q1 Q2 : outcome A -> world -> Prop) :
  post m w Q1 -> post m w Q2 -> post m w (fun o w' => Q1 o w' /\ Q2 o w').
Proof. unfold post. auto. Qed.





(** C4. When fewer than ten rows of the table without its all-null rows
    have a target value, [train_imputation_model] returns [None] (the pair
    (None, None) of the code), raises nothing and writes no artifact: only
    the model directory is created. The column is then the same after
    [fill_null_ML] as before, its nulls included. *)
Theorem too_few_rows_skips (df : ref) (t md : string) (w : world) d n :
  heap w !! df = Some d ->
  labelled_rows d t = Some n ->
  n < 10 ->
  (forall rs, train_imputation_model df t md rs w
              = (Return None, mkWorld (heap w) ({[md]} ∪ dirs w) (files w))) /\
  post (fill_null_ML df md) w (fun o w' =>
    forall r, o = Return r ->
      exists d', heap w' !! r = Some d' /\ getitem d' t = getitem d t).
Proof.
  intros Hd Hn Hlt. split; [intros rs; by eapply train_skips|].
  eapply post_mono; [|by apply fill_post].
  intros o w' (_ & Hr & d' & Hd' & Hf & _) r ->%Hr.
  exists d'. split; [done|].
  apply labelled_rows_inv in Hn as (j & dt & Hj & _ & ->).
  eapply getitem_fills; [exact Hf|exact Hj|].
  destruct (fills_column _ _ _ j Hf) as [E|(c & _ & _ & Hle)]; [done|lia].
Qed.

(** C8. Without an artifact at [<model_dir>/<target_column>_model.pkl],
    [impute_missing_values] returns the reference it was given, raises
    nothing and leaves the state as it is. *)
Theorem impute_without_artifact (df : ref) (t md : string) (w : world) :
  files w !! os_path_join md (t +:+ "_model.pkl") = None ->
  impute_missing_values df t md w = (Return df, w).
Proof.
  intros Hnone. unfold impute_missing_values, mbind, M_bind, os_path_exists.
  rewrite Hnone. rewrite bool_decide_eq_false_2; [done|].
  by intros [? ?].
Qed.

(** C9. On a target column without a null, [impute_missing_values] is the
    identity: it returns the reference it was given and writes nothing. *)
Theorem impute_no_nulls_identity (df : ref) (t md : string) (w : world) d s :
  heap w !! df = Some d ->
  getitem d t = Some s ->
  mask_sum (map isnull (values s)) = 0 ->
  impute_missing_values df t md w = (Return df, w).
Proof.
  intros Hd Hs Hz.
  unfold impute_missing_values, mbind, M_bind, os_path_exists, joblib_load, deref.
  destruct (files w !! os_path_join md (t +:+ "_model.pkl")) as [p|] eqn:Hp.
  - rewrite bool_decide_eq_true_2 by eauto. simpl.
    rewrite Hp, Hd. simpl. rewrite Hs. simpl. by rewrite Hz.
  - rewrite bool_decide_eq_false_2; [done|]. by intros [? ?].
Qed.

(** C10. [train_imputation_model] leaves every table of the store as it
    is, whatever its outcome; what it changes is the model directory, which
    it creates, and at most the file
    [<model_dir>/<target_column>_model.pkl]. *)
Theorem train_keeps_tables (df : ref) (t md : string) (rs : Z) (w : world) :
  post (train_imputation_model df t md rs) w (fun o w' =>
    heap w' = heap w /\
    dirs w' = {[md]} ∪ dirs w /\
    (files w' = files w \/
     exists p, files w' = <[os_path_join md (t +:+ "_model.pkl") := p]> (files w))).
Proof.
  eapply post_mono; [|apply train_post].
  intros o w' (Hh & Hd & Hrest). split; [done|]. split; [done|].
  destruct o as [[[p fs]|]|e].
  - right. exists p. apply Hrest.
  - left. apply Hrest.
  - by left.
Qed.

End Claims.

(** ** Which columns are selected *)

Lemma elem_of_select_seq {A} (f : nat -> bool) (l : list A) k x :
  x ∈ select (map f (seq k (length l))) l <->
  exists i, l !! i = Some x /\ f (k + i) = true.
Proof.
  revert k. induction l as [|y l IH]; intros k; simpl.
  - split; [by intros ?%elem_of_nil|by intros (i & ? & _)].
  - destruct (f k) eqn:Hk.
    + rewrite elem_of_cons, IH. split.
      * intros [->|(i & Hi & Hf)].
        -- exists 0. by rewrite Nat.add_0_r.
        -- exists (S i). by rewrite Nat.add_succ_r.
      * intros ([|i] & Hi & Hf); simpl in Hi.
        -- left. congruence.
        -- right. exists i. by rewrite Nat.add_succ_r in Hf.
    + rewrite IH. split.
      * intros (i & Hi & Hf). exists (S i). by rewrite Nat.add_succ_r.
      * intros ([|i] & Hi & Hf); simpl in Hi.
        -- rewrite Nat.add_0_r in Hf. congruence.
        -- exists i. by rewrite Nat.add_succ_r in Hf.
Qed.

Lemma elem_of_target_cols d col :
  col ∈ target_cols d <->
  exists j dt, columns d !! j = Some (col, dt) /\
    0 < mask_sum (map isnull (column_at d j)).
Proof.
  unfold target_cols, names.
  rewrite <- (length_map fst (columns d)), elem_of_select_seq.
  split.
  - intros (j & Hj & Hf). rewrite list_lookup_fmap in Hj.
    destruct (columns d !! j) as [[c dt]|] eqn:E; simpl in Hj; [|done].
    injection Hj as ->. exists j, dt. split; [done|]. by apply Nat.ltb_lt.
  - intros (j & dt & Hj & Hf). exists j. rewrite list_lookup_fmap, Hj.
    split; [done|]. by apply Nat.ltb_lt.
Qed.

Lemma elem_of_eligible_cols d col :
  col ∈ eligible_cols d <-> col ∈ target_cols d /\ eligible d col = true.
Proof.
  unfold eligible_cols. rewrite !list_elem_of_In, filter_In. done.
Qed.

Lemma eligible_get_loc d col j dt :
  get_loc (columns d) col = Some j -> columns d !! j = Some (col, dt) ->
  eligible d col = is_numeric_dtype dt || is_object_dtype dt.
Proof.
  intros Hj Hdt. unfold eligible.
  destruct (getitem_get_loc d col j Hj) as (dt' & Hdt' & ->). simpl. congruence.
Qed.

Lemma existsb_Permutation {A} (f : A -> bool) (l l' : list A) :
  Permutation l l' -> existsb f l = existsb f l'.
Proof.
  induction 1 as [|x l l' _ IH|x y l|l l' l'' _ IH1 _ IH2]; simpl.
  - done.
  - by rewrite IH.
  - by destruct (f x), (f y).
  - congruence.
Qed.

Lemma imputed_Permutation d cols cols' j :
  Permutation cols cols' -> imputed d cols j -> imputed d cols' j.
Proof.
  intros Hp (c & Hc & H). exists c. split; [|done]. by rewrite <- Hp.
Qed.

Lemma same_nulls_agree d cols cols' (rs rs1 rs2 : list (list cell)) :
  Permutation cols cols' ->
  Forall2 (same_nulls d cols') rs rs1 ->
  Forall2 (same_nulls d cols) rs rs2 ->
  Forall2 (fun x y => forall j, isnull (cell_at x j) = isnull (cell_at y j)) rs1 rs2.
Proof.
  intros Hp H1. revert rs2.
  induction H1 as [|r r1 rs rs1 [_ Hr1] _ IH]; intros rs2 H2;
    inversion H2 as [|? r2 ? rs2' [_ Hr2] H2']; subst; constructor; [|by apply IH].
  intros j. rewrite Hr1, Hr2. unfold settled.
  by rewrite (existsb_Permutation _ _ _ Hp).
Qed.

Section Selection.
Context `{SK : Sklearn}.

(** C6, as the code has it. The columns [fill_null_ML] selects are the
    columns that hold a null and whose dtype is numeric or [object]; a
    column of any other dtype, [category] included, is returned as it was,
    whether it holds a null or not. *)
Theorem eligible_numeric_or_object (df : ref) (md : string) (w : world) d :
  heap w !! df = Some d ->
  NoDup (names d) ->
  (forall col, col ∈ eligible_cols d <->
     exists j dt, columns d !! j = Some (col, dt) /\
       0 < mask_sum (map isnull (column_at d j)) /\
       is_numeric_dtype dt || is_object_dtype dt = true) /\
  post (fill_null_ML df md) w (fun o w' =>
    forall r, o = Return r ->
      exists d', heap w' !! r = Some d' /\ columns d' = columns d /\
        forall j col dt, columns d !! j = Some (col, dt) ->
          is_numeric_dtype dt || is_object_dtype dt = false ->
          column_at d' j = column_at d j).
Proof.
  intros Hd Hnd. split.
  - intros col. rewrite elem_of_eligible_cols, elem_of_target_cols. split.
    + intros [(j & dt & Hj & Hn) He]. exists j, dt. split; [done|]. split; [done|].
      by rewrite <- (eligible_get_loc d col j dt (get_loc_NoDup _ _ _ _ Hnd Hj) Hj).
    + intros (j & dt & Hj & Hn & He). split; [by exists j, dt|].
      by rewrite (eligible_get_loc d col j dt (get_loc_NoDup _ _ _ _ Hnd Hj) Hj).
  - eapply post_mono; [|by apply fill_post].
    intros o w' (_ & Hr & d' & Hd' & Hf & _) r ->%Hr.
    exists d'. split; [done|]. split; [apply Hf|].
    intros j col dt Hj Hno.
    destruct (fills_column _ _ _ j Hf) as [E|(c & Hc & Hloc & _)]; [done|].
    apply elem_of_eligible_cols in Hc as [_ He].
    destruct (get_loc_Some _ _ _ Hloc) as [dt' Hdt'].
    rewrite (eligible_get_loc d c j dt' Hloc Hdt') in He.
    assert (dt' = dt) as -> by congruence. congruence.
Qed.

(** C7, as the code has it. Running the loop over a permutation of the
    selected columns returns a table with the same header, in which every
    cell that had a value keeps it and the same cells are null as after the
    natural order; the values filled in may differ with the order, because
    a column imputed earlier is a feature of the models trained later. *)
Theorem order_keeps_nulls (df : ref) (md : string) (w : world) d cols :
  heap w !! df = Some d ->
  Permutation cols (eligible_cols d) ->
  post (fill_null_ML df md) w (fun o1 w1 =>
  post (fill_null_ML_order cols df md) w (fun o2 w2 =>
    forall r1 r2, o1 = Return r1 -> o2 = Return r2 ->
      r1 = r2 /\
      exists d1 d2, heap w1 !! r1 = Some d1 /\ heap w2 !! r2 = Some d2 /\
        fills (imputed d (eligible_cols d)) d d1 /\
        fills (imputed d (eligible_cols d)) d d2 /\
        Forall2 (fun x y => forall j, isnull (cell_at x j) = isnull (cell_at y j))
          (rows d1) (rows d2))).
Proof.
  intros Hd Hp. eapply post_mono; [|by apply fill_post].
  intros o1 w1 (_ & Hr1 & d1 & Hd1 & Hf1 & Hn1).
  eapply post_mono; [|by apply (fill_order_post cols)].
  intros o2 w2 (_ & Hr2 & d2 & Hd2 & Hf2 & Hn2).
  intros r1 r2 E1 E2. rewrite (Hr1 _ E1), (Hr2 _ E2). split; [done|].
  exists d1, d2. do 3 (split; [done|]). split.
  - eapply fills_mono; [|exact Hf2]. intros j. by apply imputed_Permutation.
  - eapply same_nulls_agree; [exact Hp|by eapply Hn1|by eapply Hn2].
Qed.

End Selection.

(** * The code on concrete tables *)

Module Runs.
Import Tables.
#[local] Existing Instance Lookup.learner.

Example os_path_join_default :
  os_path_join "impute_models" "views_model.pkl" = "impute_models/views_model.pkl".
Proof. reflexivity. Qed.

Example os_path_join_absolute : os_path_join "m" "/tmp/x.pkl" = "/tmp/x.pkl".
Proof. reflexivity. Qed.

Example detect_videos :
  detect_column_types videos = (["category"], ["views"; "likes"]).
Proof. reflexivity. Qed.

Example eligible_videos : eligible_cols videos = ["category"].
Proof. reflexivity. Qed.

Example eligible_ordered : eligible_cols ordered = ["a"; "b"].
Proof. reflexivity. Qed.

(** The two nulls of [category] are filled with labels of the column, and
    the numeric columns are as they were. *)
Example fill_videos :
  let run := fill_null_ML 0 "m" (only videos) in
  fst run = Return 1 /\
  (drop 10 <$> (rows <$> heap (snd run) !! 1))
  = Some [ [num 4; num 8; str "music"]; [num 20; num 40; str "news"] ].
Proof. cbv zeta. split; vm_compute; reflexivity. Qed.

(** A rating known in six rows of eight is left with its nulls. *)
Example fill_ratings :
  let run := fill_null_ML 0 "m" (only ratings) in
  fst run = Return 1 /\ heap (snd run) !! 1 = Some ratings /\ files (snd run) = ∅.
Proof. cbv zeta. splits; vm_compute; reflexivity. Qed.

(** A negative prediction is written as zero. *)
Example fill_signed :
  (drop 10 <$> (rows <$> heap (snd (fill_null_ML 0 "m" (only signed))) !! 1))
  = Some [ [num 1; num 0] ].
Proof. vm_compute; reflexivity. Qed.

Lemma fill_null_ML_keeps_input_witness :
  heap (snd (fill_null_ML 0 "m" (only videos))) !! 0 = Some videos.
Proof.
  exact (proj1 (fill_null_ML_keeps_input 0 "m" (only videos) videos eq_refl)).
Defined.

Lemma imputation_only_fills_witness :
  exists d', heap (snd (fill_null_ML 0 "m" (only videos))) !! 1 = Some d' /\
    columns d' = columns videos /\
    count_notna videos <= count_notna d' /\
    forall j, mask_sum (map isnull (column_at videos j)) = 0 ->
      column_at d' j = column_at videos j.
Proof.
  exact (proj1 (imputation_only_fills 0 "m" (only videos) videos eq_refl)
           1 eq_refl).
Defined.

(** The pipeline stored for [delta] predicts -5 for the row to fill, and
    the call writes 0 there. *)
Example clamp_signed :
  (files signed_trained !! "m/delta_model.pkl" ≫= fun p =>
   loc_get signed (map isnull (column_at signed 1)) (feature_names_in_ p) ≫= fun X =>
   predict_steps (named_steps p) X) = Some [VNum (-5)] /\
  (heap (snd (impute_missing_values 0 "delta" "m" signed_trained)) !! 0 ≫= fun d =>
   rows d !! 10) = Some [num 1; num 0].
Proof. split; vm_compute; reflexivity. Qed.


(** Six of the eight rows of [ratings] have a rating. *)
Lemma too_few_rows_skips_witness :
  train_imputation_model 0 "rating" "m" 42 (only ratings)
  = (Return None, mkWorld [ratings] ({["m"]} ∪ ∅) ∅).
Proof.
  refine (proj1 (too_few_rows_skips 0 "rating" "m" (only ratings) ratings 6
                   eq_refl eq_refl _) 42%Z).
  lia.
Defined.

Lemma impute_without_artifact_witness :
  impute_missing_values 0 "category" "m" (only videos) = (Return 0, only videos).
Proof.
  exact (impute_without_artifact 0 "category" "m" (only videos) eq_refl).
Defined.

(** The artifact of [category] is in the model directory and the column
    [category] of [complete] holds no null: the call finds the artifact,
    loads it, counts no missing value and returns. *)
Lemma impute_no_nulls_identity_witness :
  is_Some (files (beside complete)
             !! os_path_join "m" ("category" +:+ "_model.pkl")) /\
  impute_missing_values 0 "category" "m" (beside complete)
  = (Return 0, beside complete).
Proof.
  split.
  - vm_compute. eauto.
  - exact (impute_no_nulls_identity 0 "category" "m" (beside complete) complete
             (mkSeries object (column_at complete 2)) eq_refl eq_refl eq_refl).
Defined.

Lemma eligible_numeric_or_object_witness :
  "category" ∈ eligible_cols videos <->
    exists j dt, columns videos !! j = Some ("category", dt) /\
      0 < mask_sum (map isnull (column_at videos j)) /\
      is_numeric_dtype dt || is_object_dtype dt = true.
Proof.
  refine (proj1 (eligible_numeric_or_object 0 "m" (only videos) videos eq_refl _)
            "category").
  apply (bool_decide_unpack _). vm_compute. exact I.
Defined.

Lemma order_keeps_nulls_witness :
  exists d1 d2,
    heap (snd (fill_null_ML 0 "m" (only ordered))) !! 1 = Some d1 /\
    heap (snd (fill_null_ML_order ["b"; "a"] 0 "m" (only ordered))) !! 1 = Some d2 /\
    fills (imputed ordered (eligible_cols ordered)) ordered d1 /\
    fills (imputed ordered (eligible_cols ordered)) ordered d2 /\
    Forall2 (fun x y => forall j, isnull (cell_at x j) = isnull (cell_at y j))
      (rows d1) (rows d2).
Proof.
  refine (proj2 (order_keeps_nulls 0 "m" (only ordered) ordered ["b"; "a"]
                   eq_refl _ 1 1 eq_refl eq_refl)).
  apply perm_swap.
Defined.

(** C5 on a table with a row that is null everywhere. Training for column
    [a] drops that row, finds column [b] full and takes it as the only
    feature. The row is still in the table [impute_missing_values] reads:
    the feature [b] holds a null there, and the prediction for [a] is made
    from it and written. *)
Theorem null_feature_at_impute :
  let trained := train_imputation_model 0 "a" "m" 42 (only with_empty_row) in
  let imputed := impute_missing_values 0 "a" "m" (snd trained) in
  (exists p, fst trained = Return (Some (p, ["b"])) /\
     feature_names_in_ p = ["b"]) /\
  isnull_sum with_empty_row "b" = 1 /\
  ~ features_populated (snd trained) 0 "a" "m" /\
  fst imputed = Return 0 /\
  rows <$> heap (snd imputed) !! 0
  = Some (replicate 10 [num 1; num 2] ++ [[num 1; None]])%list.
Proof.
  cbv zeta. split; [|split; [|split; [|split]]].
  - eexists. split; vm_compute; reflexivity.
  - reflexivity.
  - intros (p & d & Hp & Hd & H).
    vm_compute in Hd. injection Hd as <-.
    vm_compute in Hp. injection Hp as <-.
    destruct (H "b") as (j & Hj & Hz).
    + apply list_elem_of_here.
    + vm_compute in Hj. injection Hj as <-. vm_compute in Hz. discriminate.
  - vm_compute. reflexivity.
  - vm_compute. reflexivity.
Qed.

(** C6 as stated fails on a column of dtype [category]: [tag] holds a null
    and [detect_column_types] puts it among the categorical columns, yet
    [fill_null_ML] does not select it. *)
Lemma category_not_selected :
  ~ (forall d : DataFrame, NoDup (names d) -> forall col,
       col ∈ eligible_cols d <->
       exists j dt, columns d !! j = Some (col, dt) /\
         0 < mask_sum (map isnull (column_at d j)) /\
         (is_numeric_dtype dt = true \/ col ∈ fst (detect_column_types d))).
Proof.
  intros H.
  assert ("tag" ∈ eligible_cols tagged) as Hin.
  { apply H.
    - apply (bool_decide_unpack _). vm_compute. exact I.
    - exists 1, category. split; [reflexivity|]. split; [vm_compute; lia|].
      right. vm_compute. apply list_elem_of_here. }
  vm_compute in Hin. by apply elem_of_nil in Hin.
Qed.

(** C7 as stated fails on [ordered]. In the natural order the model for
    [b] is trained after [a] is filled, on the features [a] and [c]; with
    [b] first it is trained on [c] alone. The lookup learner then fills the
    null of [b] with 20 in one order and with 10 in the other. *)
Lemma order_changes_values :
  let natural := fill_null_ML 0 "m" (only ordered) in
  let swapped := fill_null_ML_order ["b"; "a"] 0 "m" (only ordered) in
  Permutation ["b"; "a"] (eligible_cols ordered) /\
  fst natural = Return 1 /\ fst swapped = Return 1 /\
  feature_names_in_ <$> files (snd natural) !! "m/b_model.pkl" = Some ["a"; "c"] /\
  feature_names_in_ <$> files (snd swapped) !! "m/b_model.pkl" = Some ["c"] /\
  (heap (snd natural) !! 1 ≫= fun d => rows d !! 11) = Some [num 2; num 20; num 0] /\
  (heap (snd swapped) !! 1 ≫= fun d => rows d !! 11) = Some [num 2; num 10; num 0] /\
  heap (snd natural) !! 1 ≠ heap (snd swapped) !! 1.
Proof.
  cbv zeta. splits; try (vm_compute; reflexivity).
  - apply perm_swap.
  - intros H.
    apply (f_equal (fun o => o ≫= fun d => rows d !! 11)) in H.
    vm_compute in H. discriminate.
Qed.

End Runs.

(** * Further properties of the code *)

(** ** Labels and column types *)

Lemma get_loc_not_elem cols col : col ∉ map fst cols -> get_loc cols col = None.
Proof.
  intros Hn. destruct (get_loc cols col) as [j|] eqn:E; [|done].
  destruct (get_loc_Some _ _ _ E) as [dt Hdt]. exfalso. apply Hn.
  apply list_elem_of_fmap. exists (col, dt). split; [done|].
  by eapply list_elem_of_lookup_2.
Qed.

Lemma getitem_not_elem d col : col ∉ names d -> getitem d col = None.
Proof. intros Hn. unfold getitem. by rewrite (get_loc_not_elem _ _ Hn). Qed.

Lemma select_dtypes_NoDup (include : dtype -> bool) d j col dt :
  NoDup (names d) -> columns d !! j = Some (col, dt) ->
  col ∈ select_dtypes include d <-> include dt = true.
Proof.
  intros Hnd Hj. unfold select_dtypes.
  rewrite list_elem_of_fmap. split.
  - intros ([c dt'] & -> & Hin). apply list_elem_of_In, filter_In in Hin as [Hin Hf].
    apply list_elem_of_In, list_elem_of_lookup in Hin as [j' Hj']. simpl in *.
    pose proof (get_loc_NoDup _ _ _ _ Hnd Hj) as E.
    pose proof (get_loc_NoDup _ _ _ _ Hnd Hj') as E'.
    assert (j' = j) as -> by congruence. congruence.
  - intros Hf. exists (col, dt). split; [done|].
    apply list_elem_of_In, filter_In. split; [|done].
    apply list_elem_of_In. by eapply list_elem_of_lookup_2.
Qed.

(** X1. In a table with distinct labels, [detect_column_types] lists a
    column as categorical exactly when its dtype is [object] or [category]
    and as numeric exactly when it is an integer, float, complex or
    [timedelta64] dtype: no column is in both lists, and a column of dtype
    [bool] or [datetime64] is in neither. *)
Theorem detect_column_types_by_dtype d j col dt :
  NoDup (names d) ->
  columns d !! j = Some (col, dt) ->
  (col ∈ fst (detect_column_types d) <-> dt = object \/ dt = category) /\
  (col ∈ snd (detect_column_types d) <->
     dt = int64 \/ dt = float64 \/ dt = complex128 \/ dt = timedelta64) /\
  ~ (col ∈ fst (detect_column_types d) /\ col ∈ snd (detect_column_types d)) /\
  (dt = bool_ \/ dt = datetime64 ->
     (col ∉ fst (detect_column_types d)) /\ (col ∉ snd (detect_column_types d))).
Proof.
  intros Hnd Hj. unfold detect_column_types. simpl.
  rewrite !(select_dtypes_NoDup _ d j col dt Hnd Hj).
  destruct dt; simpl; intuition congruence.
Qed.

Lemma select_sublist {A} (mask : list bool) (l : list A) :
  sublist (select mask l) l.
Proof.
  revert l. induction mask as [|b m IH]; intros [|x l]; simpl;
    try apply sublist_nil_l.
  destruct b; [by apply sublist_skip|by apply sublist_cons].
Qed.

Lemma filter_sublist {A} (f : A -> bool) (l : list A) :
  sublist (List.filter f l) l.
Proof.
  induction l as [|x l IH]; simpl; [constructor|].
  destruct (f x); [by apply sublist_skip|by apply sublist_cons].
Qed.

(** X2. The columns [fill_null_ML] works on are labels of the table, in
    the order of its columns; with distinct labels no column comes twice,
    so each is trained at most once in a run. *)
Theorem eligible_cols_in_column_order d :
  sublist (eligible_cols d) (names d) /\
  (NoDup (names d) -> NoDup (eligible_cols d)).
Proof.
  assert (sublist (eligible_cols d) (names d)) as Hs.
  { unfold eligible_cols, target_cols.
    etrans; [apply filter_sublist|apply select_sublist]. }
  split; [done|]. intros Hnd. by eapply sublist_NoDup.
Qed.

(** ** Training *)

Section Training.
Context `{SK : Sklearn}.

(** X3. The feature list [train_imputation_model] returns holds exactly
    the labels of the table, other than the target, whose column has no
    null once the all-null rows are dropped; the target is never a feature
    of its own model. *)
Theorem train_features (df : ref) (t md : string) (rs : Z) (w : world) d :
  heap w !! df = Some d ->
  post (train_imputation_model df t md rs) w (fun o w' =>
    forall p fs, o = Return (Some (p, fs)) ->
      (t ∉ fs) /\
      forall f, f ∈ fs <->
        f ∈ names d /\ f ≠ t /\ isnull_sum (dropna_all d) f = 0).
Proof.
  intros Hd. unfold train_imputation_model.
  do 3 mstep. mstep as Hd'; [|done]. injection Hd as ->.
  set (features := List.filter _ _).
  assert (forall f, f ∈ features <->
            f ∈ names d /\ f ≠ t /\ isnull_sum (dropna_all d) f = 0) as Hf.
  { intros f. unfold features. rewrite list_elem_of_In, filter_In, <- list_elem_of_In.
    rewrite andb_true_iff, negb_true_iff, String.eqb_neq, Nat.eqb_eq. done. }
  mstep as Ht. mstep. mstep as Hs; [|done].
  mstep. mstep as HX; [|done]. mstep as Hlt; [by mstep|].
  do 4 mstep. unfold pipeline_fit.
  do 2 mstep. mstep; [|done].
  do 2 mstep. unfold pipeline_predict. mstep; [|done].
  mstep. mstep; [|done].
  do 3 mstep. intros p' fs [= <- <-]. split; [|done].
  intros Hin. apply Hf in Hin. tauto.
Qed.

(** X4. Asked for a target that is not a label of the table,
    [train_imputation_model] raises [KeyError]; by then it has created the
    model directory, and it writes no artifact. *)
Theorem train_missing_target (df : ref) (t md : string) (rs : Z) (w : world) d :
  heap w !! df = Some d ->
  t ∉ names d ->
  train_imputation_model df t md rs w
  = (Raise KeyError, mkWorld (heap w) ({[md]} ∪ dirs w) (files w)).
Proof.
  intros Hd Hn.
  unfold train_imputation_model, mbind, M_bind, os_makedirs, deref. simpl.
  rewrite Hd. simpl. by rewrite (getitem_not_elem (dropna_all d) t Hn).
Qed.

(** X5. The pipeline [train_imputation_model] returns is the one stored
    under [<model_dir>/<target_column>_model.pkl]: loading that path next
    gives it back, whatever was stored there before, and no other path of
    the model directory is touched. *)
Theorem train_then_load (df : ref) (t md : string) (rs : Z) (w : world) :
  post (train_imputation_model df t md rs) w (fun o w' =>
    forall p fs, o = Return (Some (p, fs)) ->
      joblib_load (os_path_join md (t +:+ "_model.pkl")) w' = (Return p, w') /\
      forall path, path ≠ os_path_join md (t +:+ "_model.pkl") ->
        files w' !! path = files w !! path).
Proof.
  eapply post_mono; [|apply train_post].
  intros o w' (_ & _ & Hrest) p fs ->. destruct Hrest as [Hf _].
  unfold model_path in Hf. split.
  - unfold joblib_load. by rewrite Hf, lookup_insert_eq.
  - intros path Hne. by rewrite Hf, lookup_insert_ne.
Qed.

(** X6. Training is skipped exactly below ten labelled rows: with [n]
    rows of the table (all-null rows dropped) holding a target value,
    [train_imputation_model] returns [None] if and only if [n < 10]; from
    ten rows on it returns a pipeline or raises. *)
Theorem train_skips_below_ten (df : ref) (t md : string) (rs : Z) (w : world) d n :
  heap w !! df = Some d ->
  labelled_rows d t = Some n ->
  fst (train_imputation_model df t md rs w) = Return None <-> n < 10.
Proof.
  intros Hd Hn. split.
  - intros Ho. pose proof (train_post df t md rs w) as H. unfold post in H.
    rewrite Ho in H. destruct H as (_ & _ & _ & d' & n' & Hd' & Hn' & Hlt).
    congruence.
  - intros Hlt. by rewrite (train_skips df t md rs w d n Hd Hn Hlt).
Qed.

End Training.

(** ** Imputing *)

Lemma loc_get_Some_labels d mask labels X f :
  loc_get d mask labels = Some X -> f ∈ labels -> f ∈ names d.
Proof.
  unfold loc_get. intros H Hf.
  destruct (mapM (get_loc (columns d)) labels) as [js|] eqn:E; simpl in H; [|done].
  apply mapM_Some in E. clear H.
  revert Hf. induction E as [|l j labels js Hl _ IH]; intros Hf;
    [by apply elem_of_nil in Hf|].
  apply elem_of_cons in Hf as [<-|Hf]; [|by apply IH].
  destruct (get_loc_Some _ _ _ Hl) as [dt Hdt].
  apply list_elem_of_fmap. exists (f, dt). split; [done|].
  by eapply list_elem_of_lookup_2.
Qed.

Lemma set_where_null_no_nulls P j rs rs' :
  Forall (fun r : list cell => j < length r) rs ->
  Forall2 (set_where_null P j) rs rs' ->
  mask_sum (map isnull (map (fun r => cell_at r j) rs')) = 0.
Proof.
  intros Hw H. induction H as [|r r' rs rs' Hr _ IH]; [done|].
  apply Forall_cons in Hw as [Hlt Hw]. simpl. rewrite (IH Hw).
  unfold set_where_null in Hr. destruct (isnull (cell_at r j)) eqn:E.
  - destruct Hr as (v & _ & ->). by rewrite cell_at_insert_eq.
  - subst r'. by rewrite E.
Qed.

Section Imputing.
Context `{SK : Sklearn}.

Lemma impute_skips (df : ref) (t md : string) (w : world) d j :
  heap w !! df = Some d ->
  get_loc (columns d) t = Some j ->
  mask_sum (map isnull (column_at d j)) = 0 ->
  impute_missing_values df t md w = (Return df, w).
Proof.
  intros Hd Hj Hz. destruct (getitem_get_loc d t j Hj) as (dt & _ & Hs).
  unfold impute_missing_values, mbind, M_bind, os_path_exists, joblib_load, deref.
  destruct (files w !! os_path_join md (t +:+ "_model.pkl")) as [p|] eqn:Hp.
  - rewrite bool_decide_eq_true_2 by eauto. simpl.
    rewrite Hp, Hd. simpl. rewrite Hs. simpl. by rewrite Hz.
  - rewrite bool_decide_eq_false_2; [done|]. by intros [? ?].
Qed.

(** X7. When the stored pipeline expects a feature column that the table
    does not have, [impute_missing_values] raises [KeyError] as soon as the
    target has a null to fill, and the table is left as it was. *)
Theorem impute_stale_artifact (df : ref) (t md : string) (w : world) p d s f :
  files w !! os_path_join md (t +:+ "_model.pkl") = Some p ->
  heap w !! df = Some d ->
  getitem d t = Some s ->
  0 < mask_sum (map isnull (values s)) ->
  f ∈ feature_names_in_ p ->
  f ∉ names d ->
  impute_missing_values df t md w = (Raise KeyError, w).
Proof.
  intros Hp Hd Hs Hm Hf Hn.
  unfold impute_missing_values, mbind, M_bind, os_path_exists, joblib_load, deref.
  rewrite bool_decide_eq_true_2 by eauto. simpl.
  rewrite Hp, Hd. simpl. rewrite Hs. simpl.
  destruct (mask_sum (map isnull (values s)) =? 0) eqn:E;
    [apply Nat.eqb_eq in E; lia|].
  destruct (loc_get d (map isnull (values s)) (feature_names_in_ p)) as [X|] eqn:HX;
    [|done].
  exfalso. apply Hn. by eapply loc_get_Some_labels.
Qed.

(** X8. With an artifact in place, [impute_missing_values] raises
    [KeyError] for a target that is not a label of the table, and changes
    nothing. *)
Theorem impute_missing_target (df : ref) (t md : string) (w : world) p d :
  files w !! os_path_join md (t +:+ "_model.pkl") = Some p ->
  heap w !! df = Some d ->
  t ∉ names d ->
  impute_missing_values df t md w = (Raise KeyError, w).
Proof.
  intros Hp Hd Hn.
  unfold impute_missing_values, mbind, M_bind, os_path_exists, joblib_load, deref.
  rewrite bool_decide_eq_true_2 by eauto. simpl.
  rewrite Hp, Hd. simpl. by rewrite (getitem_not_elem d t Hn).
Qed.

(** X9. With an artifact in place, a call of [impute_missing_values]
    that returns leaves no null in the target column (every row of the
    table reaching that column): it fills all the missing values or none. *)
Theorem impute_fills_every_null (df : ref) (t md : string) (w : world) p d j :
  files w !! os_path_join md (t +:+ "_model.pkl") = Some p ->
  heap w !! df = Some d ->
  get_loc (columns d) t = Some j ->
  Forall (fun r => j < length r) (rows d) ->
  post (impute_missing_values df t md) w (fun o w' =>
    forall r, o = Return r ->
      exists d', heap w' !! df = Some d' /\
        mask_sum (map isnull (column_at d' j)) = 0).
Proof.
  intros Hp Hd Hj Hw. eapply post_mono; [|apply impute_post].
  intros o w' (_ & _ & [[Hh Hret]|(_ & d0 & j0 & dt & rs' & Hd0 & Hj0 & _ & Hrs & Hh)]) r Hr.
  - destruct (Hret r Hr) as [_ [Hnone|(d1 & s & Hd1 & Hs & Hz)]].
    + unfold model_path in Hnone. congruence.
    + assert (d1 = d) as -> by congruence.
      apply getitem_inv in Hs as (j' & dt & Hj' & _ & ->).
      assert (j' = j) as -> by congruence.
      exists d. by rewrite Hh.
  - assert (d0 = d) as -> by congruence. assert (j0 = j) as -> by congruence.
    rewrite Hh. eexists. split; [apply list_lookup_insert_eq; by eapply lookup_lt_Some|].
    unfold column_at. simpl. by eapply set_where_null_no_nulls.
Qed.

(** X10. [impute_missing_values] is idempotent on a table whose rows all
    have the width of the header: after a call that returns, a second call
    for the same column returns the same reference and changes nothing. *)
Theorem impute_twice (df : ref) (t md : string) (w : world) d :
  heap w !! df = Some d ->
  Forall (fun r => length r = length (columns d)) (rows d) ->
  post (impute_missing_values df t md) w (fun o w' =>
    forall r, o = Return r ->
      impute_missing_values r t md w' = (Return r, w')).
Proof.
  intros Hd Hw. eapply post_mono; [|apply impute_post].
  intros o w' (_ & Hf & [[Hh Hret]|(Ho & d0 & j & dt & rs' & Hd0 & Hj & _ & Hrs & Hh)]) r Hr.
  - destruct (Hret r Hr) as [-> [Hnone|(d1 & s & Hd1 & Hs & Hz)]].
    + unfold impute_missing_values, mbind, M_bind, os_path_exists.
      fold (model_path md t). rewrite Hf, Hnone.
      rewrite bool_decide_eq_false_2; [done|]. by intros [? ?].
    + apply getitem_inv in Hs as (j & dt & Hj & _ & ->).
      eapply impute_skips; [by rewrite Hh|exact Hj|exact Hz].
  - rewrite Ho in Hr. injection Hr as <-. assert (d0 = d) as -> by congruence.
    eapply (impute_skips df t md w' (mkDataFrame (columns d) rs') j).
    + rewrite Hh. apply list_lookup_insert_eq. by eapply lookup_lt_Some.
    + done.
    + unfold column_at. simpl. eapply set_where_null_no_nulls; [|exact Hrs].
      eapply Forall_impl; [exact Hw|]. intros r Hlen. simpl in Hlen.
      rewrite Hlen. by eapply get_loc_lt.
Qed.

End Imputing.

(** ** The loop and the model directory *)

Section Artifacts.
Context `{SK : Sklearn}.

(** What a turn of the loop does to the model directory. *)
Lemma process_col_files (md : string) (df : ref) (col : string) (w : world) d :
  heap w !! df = Some d ->
  post (process_col md df col) w (fun o w' =>
    dirs w' = {[md]} ∪ dirs w /\
    ((files w' = files w /\
      forall r, o = Return r ->
        exists n, labelled_rows d col = Some n /\ n < 10) \/
     (exists p n, files w' = <[model_path md col := p]> (files w) /\
        labelled_rows d col = Some n /\ 10 <= n))).
Proof.
  intros Hd. unfold process_col. mstep.
  eapply post_mono; [|apply train_post].
  intros [[[p fs]|]|e] w1 (Hh & Hdirs & Hrest); simpl.
  - destruct Hrest as (Hf & d0 & n & Hd0 & Hn & Hle).
    assert (d0 = d) as -> by congruence.
    eapply post_mono; [|apply impute_post].
    intros o w' (Hdirs' & Hf' & _). split; [congruence|].
    right. exists p, n. by rewrite Hf', Hf.
  - destruct Hrest as (Hf & d0 & n & Hd0 & Hn & Hlt).
    assert (d0 = d) as -> by congruence.
    mstep. split; [done|]. left. split; [done|]. intros _ _. by exists n.
  - split; [done|]. left. by split.
Qed.

Lemma labelled_rows_fills d d1 col c n :
  fills (imputed d [col]) d d1 ->
  labelled_rows d1 c = Some n ->
  exists n0, labelled_rows d c = Some n0 /\ (10 <= n0 <-> 10 <= n).
Proof.
  intros Hf Hn. apply labelled_rows_inv in Hn as (j & dt & Hj & _ & ->).
  rewrite (proj1 Hf) in Hj. exists (labelled_at d j).
  split; [by apply labelled_rows_get_loc|].
  rewrite <- !Nat.leb_le. by rewrite (labelled_threshold _ _ _ j Hf).
Qed.

Lemma labelled_rows_fills_back d d1 col c n :
  fills (imputed d [col]) d d1 ->
  labelled_rows d c = Some n ->
  exists n1, labelled_rows d1 c = Some n1 /\ (10 <= n1 <-> 10 <= n).
Proof.
  intros Hf Hn. apply labelled_rows_inv in Hn as (j & dt & Hj & _ & ->).
  exists (labelled_at d1 j). split.
  - apply labelled_rows_get_loc. by rewrite (proj1 Hf).
  - rewrite <- !Nat.leb_le. by rewrite (labelled_threshold _ _ _ j Hf).
Qed.

(** The whole loop: the directory is created as soon as there is a column
    to work on; artifacts are only added or replaced, at the paths of the
    columns with ten labelled rows; when the loop returns each of these
    columns has its artifact. *)
Lemma process_cols_files (md : string) (cols : list string) (df : ref) (w : world) d :
  heap w !! df = Some d ->
  post (process_cols md cols df) w (fun o w' =>
    dirs w' = match cols with [] => dirs w | _ => {[md]} ∪ dirs w end /\
    (forall path, is_Some (files w !! path) -> is_Some (files w' !! path)) /\
    (forall path,
       (forall col n, col ∈ cols -> labelled_rows d col = Some n -> 10 <= n ->
          path ≠ model_path md col) ->
       files w' !! path = files w !! path) /\
    (forall r, o = Return r ->
       forall col n, col ∈ cols -> labelled_rows d col = Some n -> 10 <= n ->
         is_Some (files w' !! model_path md col))).
Proof.
  revert w d. induction cols as [|col cols IH]; intros w d Hd; simpl.
  - mstep. splits; try done. intros _ _ col n Hin. by apply elem_of_nil in Hin.
  - mstep.
    eapply post_mono;
      [|apply post_and; [by apply process_col_post|by apply process_col_files]].
    intros o w1 [(Hr & _ & _ & d1 & Hd1 & Hf1 & _) (Hdirs & Hfiles)].
    destruct o as [r|e].
    + rewrite (Hr r eq_refl).
      eapply post_mono; [|by apply IH].
      intros o' w' (Hdirs' & Hmono & Hframe & Hthere). splits.
      * rewrite Hdirs', Hdirs. destruct cols; [done|].
        by rewrite (assoc_L (∪)), (idemp_L (∪)).
      * intros path Hp. apply Hmono.
        destruct Hfiles as [[-> _]|(p & n & -> & _)]; [done|].
        destruct (decide (model_path md col = path)) as [<-|Hne].
        -- rewrite lookup_insert_eq. eauto.
        -- by rewrite lookup_insert_ne.
      * intros path Hp. rewrite Hframe.
        -- destruct Hfiles as [[-> _]|(p & n & -> & Hn & Hle)]; [done|].
           rewrite lookup_insert_ne; [done|]. intros E. symmetry in E. revert E.
           eapply Hp; [apply list_elem_of_here|exact Hn|exact Hle].
        -- intros c n Hc Hn Hle.
           destruct (labelled_rows_fills _ _ _ _ _ Hf1 Hn) as (n0 & Hn0 & Hiff).
           eapply Hp; [by apply list_elem_of_further|exact Hn0|by apply Hiff].
      * intros r' Hret c n Hc Hn Hle. apply elem_of_cons in Hc as [->|Hc].
        -- apply Hmono.
           destruct Hfiles as [[_ Hskip]|(p & n' & -> & _)].
           ++ destruct (Hskip r eq_refl) as (n' & Hn' & Hlt).
              assert (n' = n) by congruence. lia.
           ++ rewrite lookup_insert_eq. eauto.
        -- destruct (labelled_rows_fills_back _ _ _ _ _ Hf1 Hn) as (n1 & Hn1 & Hiff).
           eapply Hthere; [exact Hret|exact Hc|exact Hn1|by apply Hiff].
    + splits.
      * done.
      * intros path Hp.
        destruct Hfiles as [[-> _]|(p & n & -> & _)]; [done|].
        destruct (decide (model_path md col = path)) as [<-|Hne].
        -- rewrite lookup_insert_eq. eauto.
        -- by rewrite lookup_insert_ne.
      * intros path Hp.
        destruct Hfiles as [[-> _]|(p & n & -> & Hn & Hle)]; [done|].
        rewrite lookup_insert_ne; [done|]. intros E. symmetry in E. revert E.
        eapply Hp; [apply list_elem_of_here|exact Hn|exact Hle].
      * done.
Qed.

End Artifacts.

(** ** [fill_null_ML] and the model directory *)

Section Directory.
Context `{SK : Sklearn}.

Lemma fill_order_files (cols : list string) (df : ref) (md : string) (w : world) d :
  heap w !! df = Some d ->
  post (fill_null_ML_order cols df md) w (fun o w' =>
    dirs w' = match cols with [] => dirs w | _ => {[md]} ∪ dirs w end /\
    (forall path, is_Some (files w !! path) -> is_Some (files w' !! path)) /\
    (forall path,
       (forall col n, col ∈ cols -> labelled_rows d col = Some n -> 10 <= n ->
          path ≠ model_path md col) ->
       files w' !! path = files w !! path) /\
    (forall r, o = Return r ->
       forall col n, col ∈ cols -> labelled_rows d col = Some n -> 10 <= n ->
         is_Some (files w' !! model_path md col))).
Proof.
  intros Hd. unfold fill_null_ML_order, copy.
  do 2 mstep. mstep as Hd'; [|congruence]. injection Hd as ->.
  mstep. lazy beta iota.
  eapply post_mono; [|apply (process_cols_files md cols _ _ d)]; [done|].
  simpl. by apply list_lookup_middle.
Qed.

(** X12. Whatever its outcome, [fill_null_ML] removes no artifact and
    writes only artifacts of its own columns: an artifact that was stored
    is still stored (possibly retrained), and what is stored under a path
    other than [<model_dir>/<target_column>_model.pkl] for a selected column
    with ten labelled rows is what it was. *)
Theorem fill_null_ML_writes_only_artifacts (df : ref) (md : string) (w : world) d :
  heap w !! df = Some d ->
  post (fill_null_ML df md) w (fun o w' =>
    (forall path, is_Some (files w !! path) -> is_Some (files w' !! path)) /\
    (forall path,
       (forall col n, col ∈ eligible_cols d -> labelled_rows d col = Some n ->
          10 <= n -> path ≠ os_path_join md (col +:+ "_model.pkl")) ->
       files w' !! path = files w !! path)).
Proof.
  intros Hd. pose proof (fill_order_files (eligible_cols d) df md w d Hd) as H.
  unfold post in *. rewrite (fill_null_ML_unfold _ _ _ _ Hd).
  destruct H as (_ & Hmono & Hframe & _). by split.
Qed.

(** X13. When [fill_null_ML] returns, every selected column with ten
    labelled rows has an artifact under
    [<model_dir>/<target_column>_model.pkl], and the model directory
    exists as soon as one column was selected. *)
Theorem fill_null_ML_leaves_artifacts (df : ref) (md : string) (w : world) d :
  heap w !! df = Some d ->
  post (fill_null_ML df md) w (fun o w' =>
    forall r, o = Return r ->
      (eligible_cols d ≠ [] -> md ∈ dirs w') /\
      forall col n, col ∈ eligible_cols d -> labelled_rows d col = Some n ->
        10 <= n ->
        is_Some (files w' !! os_path_join md (col +:+ "_model.pkl"))).
Proof.
  intros Hd. pose proof (fill_order_files (eligible_cols d) df md w d Hd) as H.
  unfold post in *. rewrite (fill_null_ML_unfold _ _ _ _ Hd).
  destruct H as (Hdirs & _ & _ & Hthere). intros r Hr. split.
  - intros Hne. rewrite Hdirs. destruct (eligible_cols d); [done|].
    apply elem_of_union_l, elem_of_singleton. done.
  - intros col n Hc Hn Hle. by eapply Hthere.
Qed.

End Directory.

(** ** [fill_null_ML] on full and on filled tables *)

Lemma select_all_false {A} (f : nat -> bool) (l : list A) k :
  (forall i, i < length l -> f (k + i) = false) ->
  select (map f (seq k (length l))) l = [].
Proof.
  revert k. induction l as [|x l IH]; intros k H; simpl; [done|].
  assert (f k = false) as ->.
  { rewrite <- (Nat.add_0_r k). apply H. simpl. lia. }
  apply IH. intros i Hi. replace (S k + i) with (k + S i) by lia.
  apply H. simpl. lia.
Qed.

Lemma mask_sum_pos {A} (f : A -> bool) (l : list A) :
  0 < mask_sum (map f l) <-> exists x, x ∈ l /\ f x = true.
Proof.
  induction l as [|y l IH]; simpl.
  - split; [lia|]. by intros (x & ?%elem_of_nil & _).
  - destruct (f y) eqn:E.
    + split; [|lia]. intros _. exists y. split; [apply list_elem_of_here|done].
    + rewrite IH. split.
      * intros (x & Hx & Hf). exists x. split; [by apply list_elem_of_further|done].
      * intros (x & Hx & Hf). apply elem_of_cons in Hx as [->|Hx]; [congruence|eauto].
Qed.

Lemma eligible_columns d d1 col :
  columns d1 = columns d -> eligible d1 col = eligible d col.
Proof.
  intros Hc. unfold eligible, getitem. rewrite Hc.
  destruct (get_loc (columns d) col) as [j|]; simpl; [|done].
  by destruct (columns d !! j).
Qed.

(** A null left by the loop sits in a row that had it, in a column the
    loop did not settle. *)
Lemma same_nulls_left d cols (rs rs1 : list (list cell)) j :
  Forall2 (same_nulls d cols) rs rs1 ->
  0 < mask_sum (map isnull (map (fun r => cell_at r j) rs1)) ->
  exists r, r ∈ rs /\ isnull (cell_at r j) = true /\
    settled d cols (length r) j = false.
Proof.
  intros H. induction H as [|r r1 rs rs1 [_ Hr] _ IH]; simpl; [lia|].
  destruct (isnull (cell_at r1 j)) eqn:E.
  - intros _. rewrite Hr in E. apply andb_true_iff in E as [E1 E2].
    exists r. split; [apply list_elem_of_here|]. split; [done|].
    by apply negb_true_iff.
  - intros Hpos. destruct (IH Hpos) as (r0 & Hin & Hrest).
    exists r0. split; [by apply list_elem_of_further|done].
Qed.

Section Again.
Context `{SK : Sklearn}.

Lemma world_eta (w : world) : mkWorld (heap w) (dirs w) (files w) = w.
Proof. by destruct w. Qed.

(** A loop over columns that all lack ten labelled rows trains nothing. *)
Lemma process_cols_skip (md : string) (cols : list string) (df : ref) (w : world) d :
  heap w !! df = Some d ->
  (forall col, col ∈ cols -> exists n, labelled_rows d col = Some n /\ n < 10) ->
  process_cols md cols df w
  = (Return df,
     mkWorld (heap w) (match cols with [] => dirs w | _ => {[md]} ∪ dirs w end)
       (files w)).
Proof.
  revert w. induction cols as [|col cols IH]; intros w Hd Hcols; simpl.
  - by rewrite world_eta.
  - destruct (Hcols col) as (n & Hn & Hlt); [apply list_elem_of_here|].
    unfold mbind, M_bind, process_col. unfold mbind, M_bind.
    rewrite (train_skips df col md 42 w d n Hd Hn Hlt). simpl.
    rewrite IH; simpl; [|done|intros c Hc; apply Hcols; by apply list_elem_of_further].
    f_equal. f_equal. destruct cols; [done|].
    by rewrite (assoc_L (∪)), (idemp_L (∪)).
Qed.

(** X14. On a table in which no column holds a null, [fill_null_ML]
    returns a reference to an exact copy and touches neither the model
    directory nor any artifact: nothing is trained. *)
Theorem fill_null_ML_full_table (df : ref) (md : string) (w : world) d :
  heap w !! df = Some d ->
  (forall j, j < length (columns d) ->
     mask_sum (map isnull (column_at d j)) = 0) ->
  fill_null_ML df md w
  = (Return (length (heap w)), mkWorld (heap w ++ [d]) (dirs w) (files w)).
Proof.
  intros Hd Hfull.
  assert (eligible_cols d = []) as He.
  { unfold eligible_cols, target_cols, names.
    rewrite <- (length_map fst (columns d)), select_all_false; [done|].
    intros i Hi. rewrite length_map in Hi. simpl.
    rewrite (Hfull i Hi). done. }
  rewrite (fill_null_ML_unfold _ _ _ _ Hd), He.
  unfold fill_null_ML_order, copy, mbind, M_bind, deref, alloc.
  by rewrite Hd.
Qed.

(** X15. When [fill_null_ML] returns, a selected column with ten labelled
    rows has no null left in the result (every row of the table reaching
    that column). *)
Theorem fill_null_ML_fills_every_null (df : ref) (md : string) (w : world) d col j :
  heap w !! df = Some d ->
  col ∈ eligible_cols d ->
  get_loc (columns d) col = Some j ->
  10 <= labelled_at d j ->
  Forall (fun r => j < length r) (rows d) ->
  post (fill_null_ML df md) w (fun o w' =>
    forall r, o = Return r ->
      exists d', heap w' !! r = Some d' /\
        mask_sum (map isnull (column_at d' j)) = 0).
Proof.
  intros Hd Hc Hj Hle Hw. eapply post_mono; [|by apply fill_post].
  intros o w' (_ & Hr & d' & Hd' & _ & Hn) r Ho.
  rewrite (Hr r Ho). exists d'. split; [done|].
  specialize (Hn r Ho).
  destruct (mask_sum (map isnull (column_at d' j))) eqn:E; [done|].
  destruct (same_nulls_left d (eligible_cols d) (rows d) (rows d') j Hn)
    as (r0 & Hin & _ & Hs); [unfold column_at in E; lia|].
  exfalso. unfold settled in Hs.
  rewrite (proj2 (Nat.leb_le _ _) Hle) in Hs.
  rewrite Forall_forall in Hw. rewrite (proj2 (Nat.ltb_lt _ _) (Hw r0 Hin)) in Hs.
  rewrite !andb_true_r in Hs.
  assert (existsb (fun c => bool_decide (get_loc (columns d) c = Some j))
            (eligible_cols d) = true); [|congruence].
  apply existsb_exists. exists col. split; [by apply list_elem_of_In|].
  by apply bool_decide_eq_true_2.
Qed.

(** What [fill_null_ML] leaves to do: a column selected in the result was
    selected in the input and has fewer than ten labelled rows. *)
Lemma eligible_after_fill d d1 col :
  NoDup (names d) ->
  Forall (fun r => length r = length (columns d)) (rows d) ->
  fills (imputed d (eligible_cols d)) d d1 ->
  Forall2 (same_nulls d (eligible_cols d)) (rows d) (rows d1) ->
  col ∈ eligible_cols d1 ->
  col ∈ eligible_cols d /\ exists n, labelled_rows d1 col = Some n /\ n < 10.
Proof.
  intros Hnd Hw Hf Hn Hc. pose proof (proj1 Hf) as Hcols.
  apply elem_of_eligible_cols in Hc as [Ht He].
  apply elem_of_target_cols in Ht as (j & dt & Hj & Hpos).
  rewrite Hcols in Hj. rewrite (eligible_columns d d1 col Hcols) in He.
  pose proof (get_loc_NoDup _ _ _ _ Hnd Hj) as Hloc.
  destruct (same_nulls_left _ _ _ _ j Hn Hpos) as (r & Hin & Hnull & Hs).
  assert (col ∈ eligible_cols d) as Hel.
  { apply elem_of_eligible_cols. split; [|done].
    apply elem_of_target_cols. exists j, dt. split; [done|].
    unfold column_at. rewrite map_map.
    apply (mask_sum_pos (fun r => isnull (cell_at r j))). eauto. }
  split; [done|]. exists (labelled_at d1 j). split.
  - apply labelled_rows_get_loc. by rewrite Hcols.
  - assert (labelled_at d j < 10) as Hlt.
    { unfold settled in Hs.
      assert (existsb (fun c => bool_decide (get_loc (columns d) c = Some j))
                (eligible_cols d) = true) as Hex.
      { apply existsb_exists. exists col. split; [by apply list_elem_of_In|].
        by apply bool_decide_eq_true_2. }
      rewrite Forall_forall in Hw.
      assert ((j <? length r) = true) as Hlt.
      { apply Nat.ltb_lt. rewrite (Hw r Hin). by eapply lookup_lt_Some. }
      rewrite Hex, Hlt, andb_true_r in Hs. by apply Nat.leb_gt. }
    destruct (fills_column _ _ _ j Hf) as [E|(c & _ & _ & Hle)]; [|lia].
    unfold labelled_at in *. by rewrite E.
Qed.

(** X16. [fill_null_ML] is idempotent on a table with distinct labels and
    rows of the width of the header: run again on its own result, it
    returns an exact copy of that result and leaves the model directory
    and every artifact as they are, so nothing is trained twice. *)
Theorem fill_null_ML_twice (df : ref) (md : string) (w : world) d :
  heap w !! df = Some d ->
  NoDup (names d) ->
  Forall (fun r => length r = length (columns d)) (rows d) ->
  post (fill_null_ML df md) w (fun o w1 =>
    forall r, o = Return r ->
      exists d1, heap w1 !! r = Some d1 /\
        fill_null_ML r md w1
        = (Return (length (heap w1)),
           mkWorld (heap w1 ++ [d1]) (dirs w1) (files w1))).
Proof.
  intros Hd Hnd Hw.
  pose proof (fill_post df md w d Hd) as H1.
  pose proof (fill_order_files (eligible_cols d) df md w d Hd) as H2.
  unfold post in *. rewrite <- (fill_null_ML_unfold _ _ _ _ Hd) in H2.
  destruct (fill_null_ML df md w) as [o w1]. simpl in *.
  destruct H1 as (_ & Hr & d1 & Hd1 & Hf & Hn). destruct H2 as (Hdirs & _).
  intros r Ho. rewrite (Hr r Ho). exists d1. split; [done|].
  specialize (Hn r Ho).
  rewrite (fill_null_ML_unfold _ _ _ _ Hd1).
  unfold fill_null_ML_order, copy, mbind, M_bind, deref, alloc, ref in *.
  rewrite Hd1.
  rewrite (process_cols_skip md (eligible_cols d1) _ _ d1).
  - simpl. f_equal. f_equal.
    destruct (eligible_cols d1) as [|c cs] eqn:E; [done|].
    destruct (eligible_after_fill d d1 c Hnd Hw Hf Hn) as [Hc _].
    { rewrite E. apply list_elem_of_here. }
    rewrite Hdirs. destruct (eligible_cols d); [by apply elem_of_nil in Hc|].
    by rewrite (assoc_L (∪)), (idemp_L (∪)).
  - simpl. by apply list_lookup_middle.
  - intros c Hc. by destruct (eligible_after_fill d d1 c Hnd Hw Hf Hn Hc).
Qed.

End Again.

(** ** Rows that are null everywhere *)

Lemma dropna_all_idem d : dropna_all (dropna_all d) = dropna_all d.
Proof.
  unfold dropna_all. simpl. f_equal.
  induction (rows d) as [|r rs IH]; simpl; [done|].
  destruct (existsb notna r) eqn:E; simpl; [|done]. by rewrite E, IH.
Qed.

Section NullRows.
Context `{SK : Sklearn}.

(** X17. Rows that are null in every column have no part in training:
    [train_imputation_model] has the same outcome, and stores the same
    artifact, on a table and on that table without its all-null rows. *)
Theorem train_ignores_null_rows (df df' : ref) (t md : string) (rs : Z)
    (w w' : world) d :
  heap w !! df = Some d ->
  heap w' !! df' = Some (dropna_all d) ->
  files w' = files w ->
  fst (train_imputation_model df t md rs w)
  = fst (train_imputation_model df' t md rs w') /\
  files (snd (train_imputation_model df t md rs w))
  = files (snd (train_imputation_model df' t md rs w')).
Proof.
  intros Hd Hd' Hf.
  unfold train_imputation_model, mbind, M_bind, os_makedirs, deref. simpl.
  rewrite Hd, Hd', dropna_all_idem. simpl.
  destruct (getitem (dropna_all d) t) as [s|]; simpl; [|done].
  destruct (loc_get _ _ _) as [X|]; simpl; [|done].
  destruct (shape0 X <? 10); simpl; [done|].
  destruct (if is_numeric_dtype (s_dtype s) then _ else _) as [model scorer].
  destruct (train_test_split _ _ _ _) as [[[X_train X_test] y_train] y_test].
  unfold pipeline_fit, pipeline_predict, joblib_dump, mbind, M_bind.
  destruct (fit_steps _ _ _ _ _) as [f|]; simpl; [|done].
  destruct (predict_steps _ _) as [y_pred|]; simpl; [|done].
  destruct (apply_scorer _ _ _) as [sc|]; simpl; [|done].
  by rewrite Hf.
Qed.

End NullRows.

(** * The further properties on concrete tables *)

Module More.
Import Tables.
#[local] Existing Instance Lookup.learner.

(** The duration is listed as numeric, the flag is not listed. *)
Example detect_timed : detect_column_types timed = ([], ["views"; "watched"]).
Proof. reflexivity. Qed.

Lemma detect_column_types_by_dtype_witness :
  ("watched" ∈ fst (detect_column_types timed)
     <-> timedelta64 = object \/ timedelta64 = category) /\
  ("watched" ∈ snd (detect_column_types timed)
     <-> timedelta64 = int64 \/ timedelta64 = float64 \/
         timedelta64 = complex128 \/ timedelta64 = timedelta64) /\
  ~ ("watched" ∈ fst (detect_column_types timed) /\
     "watched" ∈ snd (detect_column_types timed)) /\
  (timedelta64 = bool_ \/ timedelta64 = datetime64 ->
     ("watched" ∉ fst (detect_column_types timed)) /\
     ("watched" ∉ snd (detect_column_types timed))).
Proof.
  refine (detect_column_types_by_dtype timed 1 "watched" timedelta64 _ eq_refl).
  apply (bool_decide_unpack _). vm_compute. exact I.
Defined.

Lemma train_features_witness :
  ("category" ∉ ["views"; "likes"]) /\
  forall f, f ∈ ["views"; "likes"] <->
    f ∈ names videos /\ f ≠ "category" /\ isnull_sum (dropna_all videos) f = 0.
Proof.
  exact (train_features 0 "category" "m" 42 (only videos) videos eq_refl
           _ ["views"; "likes"] eq_refl).
Defined.

Lemma train_missing_target_witness :
  train_imputation_model 0 "dislikes" "m" 42 (only videos)
  = (Raise KeyError, mkWorld [videos] ({["m"]} ∪ ∅) ∅).
Proof.
  refine (train_missing_target 0 "dislikes" "m" 42 (only videos) videos eq_refl _).
  apply (bool_decide_unpack _). vm_compute. exact I.
Defined.

(** Column [a] of [with_empty_row] has exactly ten labelled rows. *)
Lemma train_skips_below_ten_witness :
  fst (train_imputation_model 0 "a" "m" 42 (only with_empty_row)) = Return None
  <-> 10 < 10.
Proof.
  exact (train_skips_below_ten 0 "a" "m" 42 (only with_empty_row) with_empty_row 10
           eq_refl eq_refl).
Defined.

Lemma train_ignores_null_rows_witness :
  fst (train_imputation_model 0 "a" "m" 42 (only with_empty_row))
  = fst (train_imputation_model 0 "a" "m" 42 (only (dropna_all with_empty_row))) /\
  files (snd (train_imputation_model 0 "a" "m" 42 (only with_empty_row)))
  = files (snd (train_imputation_model 0 "a" "m" 42
                  (only (dropna_all with_empty_row)))).
Proof.
  exact (train_ignores_null_rows 0 0 "a" "m" 42 (only with_empty_row)
           (only (dropna_all with_empty_row)) with_empty_row
           eq_refl eq_refl eq_refl).
Defined.

(** The model of [category] expects [likes], which [narrow] lacks. *)
Lemma impute_stale_artifact_witness :
  impute_missing_values 0 "category" "m" (beside narrow)
  = (Raise KeyError, beside narrow).
Proof.
  refine (impute_stale_artifact 0 "category" "m" (beside narrow) _ narrow
            (mkSeries object (column_at narrow 1)) "likes"
            eq_refl eq_refl eq_refl _ _ _).
  - vm_compute. lia.
  - apply (bool_decide_unpack _). vm_compute. exact I.
  - apply (bool_decide_unpack _). vm_compute. exact I.
Defined.

Lemma impute_missing_target_witness :
  impute_missing_values 0 "category" "m" (beside ratings)
  = (Raise KeyError, beside ratings).
Proof.
  refine (impute_missing_target 0 "category" "m" (beside ratings) _ ratings
            eq_refl eq_refl _).
  apply (bool_decide_unpack _). vm_compute. exact I.
Defined.

Lemma impute_fills_every_null_witness :
  exists d',
    heap (snd (impute_missing_values 0 "category" "m" videos_trained)) !! 0
    = Some d' /\
    mask_sum (map isnull (column_at d' 2)) = 0.
Proof.
  refine (impute_fills_every_null 0 "category" "m" videos_trained _ videos 2
            eq_refl eq_refl eq_refl _ 0 eq_refl).
  apply (bool_decide_unpack _). vm_compute. exact I.
Defined.

Lemma impute_twice_witness :
  impute_missing_values 0 "category" "m"
    (snd (impute_missing_values 0 "category" "m" videos_trained))
  = (Return 0, snd (impute_missing_values 0 "category" "m" videos_trained)).
Proof.
  refine (impute_twice 0 "category" "m" videos_trained videos eq_refl _ 0 eq_refl).
  apply (bool_decide_unpack _). vm_compute. exact I.
Defined.

(** A run on [ordered] next to the artifact of [category]. *)
Lemma fill_null_ML_writes_only_artifacts_witness :
  (forall path, is_Some (files (beside ordered) !! path) ->
     is_Some (files (snd (fill_null_ML 0 "m" (beside ordered))) !! path)) /\
  (forall path,
     (forall col n, col ∈ eligible_cols ordered ->
        labelled_rows ordered col = Some n -> 10 <= n ->
        path ≠ os_path_join "m" (col +:+ "_model.pkl")) ->
     files (snd (fill_null_ML 0 "m" (beside ordered))) !! path
     = files (beside ordered) !! path).
Proof.
  exact (fill_null_ML_writes_only_artifacts 0 "m" (beside ordered) ordered eq_refl).
Defined.

(** The artifact of [category] is kept beside the two new ones. *)
Example fill_beside_ordered :
  is_Some (files (snd (fill_null_ML 0 "m" (beside ordered))) !! "m/a_model.pkl") /\
  is_Some (files (snd (fill_null_ML 0 "m" (beside ordered))) !! "m/b_model.pkl") /\
  files (snd (fill_null_ML 0 "m" (beside ordered))) !! "m/category_model.pkl"
  = files videos_trained !! "m/category_model.pkl".
Proof. splits; vm_compute; [eauto|eauto|reflexivity]. Qed.

Lemma fill_null_ML_leaves_artifacts_witness :
  (eligible_cols videos ≠ [] -> "m" ∈ dirs (snd (fill_null_ML 0 "m" (only videos)))) /\
  forall col n, col ∈ eligible_cols videos -> labelled_rows videos col = Some n ->
    10 <= n ->
    is_Some (files (snd (fill_null_ML 0 "m" (only videos)))
               !! os_path_join "m" (col +:+ "_model.pkl")).
Proof.
  exact (fill_null_ML_leaves_artifacts 0 "m" (only videos) videos eq_refl 1 eq_refl).
Defined.

Lemma fill_null_ML_full_table_witness :
  fill_null_ML 0 "m" (only complete)
  = (Return 1, mkWorld [complete; complete] ∅ ∅).
Proof.
  refine (fill_null_ML_full_table 0 "m" (only complete) complete eq_refl _).
  intros [|[|[|j]]] Hj; [reflexivity..|simpl in Hj; lia].
Defined.

Lemma fill_null_ML_fills_every_null_witness :
  exists d', heap (snd (fill_null_ML 0 "m" (only videos))) !! 1 = Some d' /\
    mask_sum (map isnull (column_at d' 2)) = 0.
Proof.
  refine (fill_null_ML_fills_every_null 0 "m" (only videos) videos "category" 2
            eq_refl _ eq_refl _ _ 1 eq_refl).
  - apply (bool_decide_unpack _). vm_compute. exact I.
  - vm_compute. lia.
  - apply (bool_decide_unpack _). vm_compute. exact I.
Defined.

Lemma fill_null_ML_twice_witness :
  exists d1, heap (snd (fill_null_ML 0 "m" (only videos))) !! 1 = Some d1 /\
    fill_null_ML 1 "m" (snd (fill_null_ML 0 "m" (only videos)))
    = (Return (length (heap (snd (fill_null_ML 0 "m" (only videos))))),
       mkWorld (heap (snd (fill_null_ML 0 "m" (only videos))) ++ [d1])
         (dirs (snd (fill_null_ML 0 "m" (only videos))))
         (files (snd (fill_null_ML 0 "m" (only videos))))).
Proof.
  refine (fill_null_ML_twice 0 "m" (only videos) videos eq_refl _ _ 1 eq_refl).
  - apply (bool_decide_unpack _). vm_compute. exact I.
  - apply (bool_decide_unpack _). vm_compute. exact I.
Defined.

End More.
